(** * influx: binding query results to Go values, and Go records to points

    A shallow embedding of [influx.go]: the coercion layer ([parseInt],
    [parseFloat], [parseString], [parseTime]), the naming helpers
    ([titleToSnake], [snakeToTitle]), the reflective decoder ([parseSingle],
    [alignToStruct], [alignToSlice], [alignToMap], [ParseResult]) and the
    encoder ([ToPoint]).

    Conventions of the model.
    - A Go [string] is a [string] of bytes.  The naming helpers walk it byte by
      byte; this is what [[]rune(s)] does on ASCII text, the only text the
      naming results below speak about (a byte above 127 is kept as it is and
      has no case).
    - [int] and [uint] are 64 bits wide.
    - A [reflect.Value] destination is a value of type [val]; a function that
      writes through it returns the destination as it stands when the function
      returns, together with the error if any ([outcome]).  A panic and a
      recursion that does not end are outcomes of their own.
    - The order in which [range] visits a Go map is not fixed by the language:
      a map read by [range] is the list of its entries in the order of that
      run.
    - What the code takes from outside the repository is modelled where a
      result computes with it ([strconv.ParseInt], [time.Parse] with the
      RFC 3339 layout, [strings.Title]) and is a parameter otherwise (the
      float and text conversions of [GoLib], [client.NewPoint]). *)

From Stdlib Require Import ZArith List String Ascii Bool Lia.
From Stdlib Require Import Floats.SpecFloat.
Import ListNotations.

Local Open Scope string_scope.
Local Open Scope Z_scope.

Set Warnings "-register-all".

(** ** Package [unicode] and [strings], on ASCII *)

Module Unicode.

Definition code (c : ascii) : Z := Z.of_N (N_of_ascii c).

Definition between (lo hi : Z) (c : ascii) : bool :=
  (lo <=? code c) && (code c <=? hi).

Definition is_upper_letter : ascii -> bool := between 65 90.
Definition is_lower_letter : ascii -> bool := between 97 122.
Definition is_digit : ascii -> bool := between 48 57.

(** [unicode.IsUpper] *)
Definition IsUpper (c : ascii) : bool := is_upper_letter c.

(** [unicode.ToLower]: ['A' <= r && r <= 'Z'] gives [r + ('a' - 'A')]. *)
Definition ToLower (c : ascii) : ascii :=
  if is_upper_letter c then ascii_of_N (Z.to_N (code c + 32)) else c.

(** [unicode.ToTitle]: ['a' <= r && r <= 'z'] gives [r - ('a' - 'A')]. *)
Definition ToTitle (c : ascii) : ascii :=
  if is_lower_letter c then ascii_of_N (Z.to_N (code c - 32)) else c.

(** [strings.isSeparator]: ASCII letters, digits and underscore are not
    separators; every other ASCII byte is. *)
Definition isSeparator (c : ascii) : bool :=
  if code c <=? 127
  then negb (is_digit c || is_lower_letter c || is_upper_letter c
             || Ascii.eqb c "_")
  else false.

End Unicode.

Module Strings.
Import Unicode.

(** [strings.Title]: [strings.Map] with a closure that remembers the previous
    rune, starting from a space. *)
Fixpoint title_from (prev : ascii) (s : string) : string :=
  match s with
  | EmptyString => EmptyString
  | String c r =>
      String (if isSeparator prev then ToTitle c else c) (title_from c r)
  end.

Definition Title (s : string) : string := title_from " " s.

(** [strings.Split(s, sep)] for a separator of one byte: the pieces between
    the separators, [[""]] for the empty string. *)
Fixpoint Split (sep : ascii) (s : string) : list string :=
  match s with
  | EmptyString => [EmptyString]
  | String c r =>
      if Ascii.eqb c sep then EmptyString :: Split sep r
      else match Split sep r with
           | seg :: segs => String c seg :: segs
           | [] => [String c EmptyString]
           end
  end.

(** [strings.Join(segs, sep)] *)
Definition Join (segs : list string) (sep : string) : string :=
  String.concat sep segs.

(** [strings.HasSuffix] *)
Definition HasSuffix (s suffix : string) : bool :=
  let n := String.length s in
  let m := String.length suffix in
  (m <=? n)%nat && String.eqb (substring (n - m) m s) suffix.

(** [strings.LastIndexByte]: the index after the last occurrence of [c],
    as the number of bytes to drop; [None] when [c] does not occur. *)
Fixpoint after_last (c : ascii) (s : string) : option string :=
  match s with
  | EmptyString => None
  | String d r =>
      match after_last c r with
      | Some t => Some t
      | None => if Ascii.eqb d c then Some r else None
      end
  end.

End Strings.

(** ** Naming: [titleToSnake] and [snakeToTitle] *)

Module Naming.
Import Unicode Strings.

(** The loop of [titleToSnake].  At an upper-case rune that follows a rune
    that is not upper-case, an underscore is spliced in before it (the
    [append(append(r[:i:i], '_'), r[i:]...)] and the extra [i++]); the rune is
    lowered in both cases, and [lastIsUpper] is [true] afterwards. *)
Fixpoint snake_from (lastIsUpper : bool) (s : string) : string :=
  match s with
  | EmptyString => EmptyString
  | String c r =>
      if IsUpper c then
        if lastIsUpper
        then String (ToLower c) (snake_from true r)
        else String "_" (String (ToLower c) (snake_from true r))
      else String c (snake_from false r)
  end.

Definition titleToSnake (s : string) : string := snake_from true s.

Definition snakeToTitle (s : string) : string :=
  Join (map Title (Split "_" s)) "".

(** Snake case as the specification words it: lower case (no upper-case
    letter), pieces separated by underscores, no underscore in front or at
    the end. *)
Fixpoint no_upper (s : string) : bool :=
  match s with
  | EmptyString => true
  | String c r => negb (IsUpper c) && no_upper r
  end.

Definition first_byte (s : string) : option ascii :=
  match s with EmptyString => None | String c _ => Some c end.

Fixpoint last_byte (s : string) : option ascii :=
  match s with
  | EmptyString => None
  | String c EmptyString => Some c
  | String _ r => last_byte r
  end.

Definition is_underscore (o : option ascii) : bool :=
  match o with Some c => Ascii.eqb c "_" | None => false end.

Definition plain_snake (s : string) : bool :=
  no_upper s && negb (is_underscore (first_byte s))
  && negb (is_underscore (last_byte s)).

(** The snake-case names on which the two conversions are inverse: every
    piece starts with a lower-case letter and goes on with lower-case
    letters and digits, and every piece but the last has two bytes or
    more. *)
Definition piece_byte (c : ascii) : bool := is_lower_letter c || is_digit c.

Fixpoint all_bytes (p : ascii -> bool) (s : string) : bool :=
  match s with
  | EmptyString => true
  | String c r => p c && all_bytes p r
  end.

Definition piece_ok (seg : string) : bool :=
  match seg with
  | EmptyString => false
  | String c r => is_lower_letter c && all_bytes piece_byte r
  end.

Fixpoint pieces_ok (segs : list string) : bool :=
  match segs with
  | [] => false
  | [seg] => piece_ok seg
  | seg :: rest =>
      piece_ok seg && (2 <=? String.length seg)%nat && pieces_ok rest
  end.

Definition round_trip_snake (s : string) : bool := pieces_ok (Split "_" s).

(** What [titleToSnake] puts before an upper-case letter. *)
Definition lead (lastIsUpper : bool) : string :=
  if lastIsUpper then "" else "_".

End Naming.

(** ** Fixed-width integers *)

Module Int.

(** The widths of Go's sized integers; [int] and [uint] are [W64]. *)
Inductive width := W8 | W16 | W32 | W64.

Definition bits (w : width) : Z :=
  match w with W8 => 8 | W16 => 16 | W32 => 32 | W64 => 64 end.

(** Conversion to an unsigned integer of [w] bits. *)
Definition uwrap (w : width) (z : Z) : Z := z mod 2 ^ bits w.

(** Conversion to a signed integer of [w] bits (two's complement). *)
Definition swrap (w : width) (z : Z) : Z :=
  (z + 2 ^ (bits w - 1)) mod 2 ^ bits w - 2 ^ (bits w - 1).

Definition int64 (z : Z) : Z := swrap W64 z.
Definition uint64 (z : Z) : Z := uwrap W64 z.

Definition maxInt64 : Z := 2 ^ 63 - 1.
Definition minInt64 : Z := - 2 ^ 63.
Definition maxUint64 : Z := 2 ^ 64 - 1.

End Int.

(** ** Package [strconv]: integers *)

Module Strconv.
Import Unicode Int.

Inductive NumError := ErrSyntax | ErrRange.

(** The loop of [ParseUint(s, 10, 64)]: a byte that is not a decimal digit
    is a syntax error, and the first overflow returns at once with the
    largest value and a range error. *)
Fixpoint uint_loop (n : Z) (s : string) : Z * option NumError :=
  match s with
  | EmptyString => (n, None)
  | String c r =>
      if is_digit c then
        if n >=? maxUint64 / 10 + 1 then (maxUint64, Some ErrRange)
        else
          let n1 := n * 10 + (code c - 48) in
          if n1 >? maxUint64 then (maxUint64, Some ErrRange)
          else uint_loop n1 r
      else (0, Some ErrSyntax)
  end.

Definition ParseUint (s : string) : Z * option NumError :=
  match s with
  | EmptyString => (0, Some ErrSyntax)
  | _ => uint_loop 0 s
  end.

(** [ParseInt(s, 10, 64)] *)
Definition ParseInt (s : string) : Z * option NumError :=
  match s with
  | EmptyString => (0, Some ErrSyntax)
  | String c r =>
      let neg := Ascii.eqb c "-" in
      let body := if Ascii.eqb c "+" || neg then r else s in
      match ParseUint body with
      | (_, Some ErrSyntax) => (0, Some ErrSyntax)
      | (un, _) =>
          if negb neg && (un >=? 2 ^ 63) then (maxInt64, Some ErrRange)
          else if neg && (un >? 2 ^ 63) then (minInt64, Some ErrRange)
          else (if neg then - un else un, None)
      end
  end.

(** Decimal digits of a natural number, most significant first. *)
Fixpoint digits_from (fuel : nat) (n : Z) (acc : string) : string :=
  match fuel with
  | O => acc
  | S k =>
      let acc' := String (ascii_of_N (Z.to_N (48 + n mod 10))) acc in
      if n <? 10 then acc' else digits_from k (n / 10) acc'
  end.

(** [FormatUint(n, 10)] for [0 <= n] *)
Definition FormatUint (n : Z) : string :=
  digits_from (S (Z.to_nat (Z.log2 n))) n EmptyString.

(** [FormatInt(n, 10)] *)
Definition FormatInt (n : Z) : string :=
  if n <? 0 then String "-" (FormatUint (- n)) else FormatUint n.

End Strconv.

(** ** Package [time]: instants and the RFC 3339 layout *)

Module GoTime.
Import Unicode Int.

(** An instant: seconds since the Unix epoch and nanoseconds within the
    second.  The location a [time.Time] also carries is left out. *)
Record Time := mkTime { unixSec : Z; nanos : Z }.

(** The zero [time.Time], January 1 of year 1, 00:00:00 UTC. *)
Definition zeroTime : Time := mkTime (-62135596800) 0.

(** [time.Unix(sec, nsec)], which brings [nsec] into [[0, 1e9)]. *)
Definition Unix (sec nsec : Z) : Time :=
  if (nsec <? 0) || (nsec >=? 1000000000) then
    let n := Z.quot nsec 1000000000 in
    let sec1 := sec + n in
    let nsec1 := nsec - n * 1000000000 in
    if nsec1 <? 0 then mkTime (sec1 - 1) (nsec1 + 1000000000)
    else mkTime sec1 nsec1
  else mkTime sec nsec.

(** [t.UnixNano()], an [int64]. *)
Definition UnixNano (t : Time) : Z :=
  int64 (unixSec t * 1000000000 + nanos t).

Definition isLeap (y : Z) : bool :=
  (y mod 4 =? 0) && (negb (y mod 100 =? 0) || (y mod 400 =? 0)).

Definition daysIn (m y : Z) : Z :=
  if m =? 2 then (if isLeap y then 29 else 28)
  else if (m =? 4) || (m =? 6) || (m =? 9) || (m =? 11) then 30 else 31.

(** Days from 1970-01-01 to the given day of the proleptic Gregorian
    calendar. *)
Definition daysFromCivil (y m d : Z) : Z :=
  let y1 := if m <=? 2 then y - 1 else y in
  let era := y1 / 400 in
  let yoe := y1 - era * 400 in
  let mp := if m >? 2 then m - 3 else m + 9 in
  let doy := (153 * mp + 2) / 5 + d - 1 in
  let doe := yoe * 365 + yoe / 4 - yoe / 100 + doy in
  era * 146097 + doe - 719468.

(** [time.Date(y, m, d, hh, mm, ss, ns, time.UTC)] on values in range. *)
Definition DateUTC (y m d hh mm ss ns : Z) : Time :=
  mkTime (daysFromCivil y m d * 86400 + hh * 3600 + mm * 60 + ss) ns.

Definition digit (s : string) : option (Z * string) :=
  match s with
  | String c r => if is_digit c then Some (code c - 48, r) else None
  | EmptyString => None
  end.

(** [getnum(s, true)]: exactly two digits. *)
Definition num2 (s : string) : option (Z * string) :=
  match digit s with
  | Some (a, r) =>
      match digit r with
      | Some (b, r') => Some (a * 10 + b, r')
      | None => None
      end
  | None => None
  end.

(** [getnum(s, false)]: one digit, or two when a second one follows. *)
Definition num12 (s : string) : option (Z * string) :=
  match digit s with
  | Some (a, r) =>
      match digit r with
      | Some (b, r') => Some (a * 10 + b, r')
      | None => Some (a, r)
      end
  | None => None
  end.

(** The four digits of the year. *)
Definition num4 (s : string) : option (Z * string) :=
  match num2 s with
  | Some (a, r) =>
      match num2 r with
      | Some (b, r') => Some (a * 100 + b, r')
      | None => None
      end
  | None => None
  end.

Definition lit (c : ascii) (s : string) : option string :=
  match s with
  | String d r => if Ascii.eqb c d then Some r else None
  | EmptyString => None
  end.

(** The digits of a fractional second: the first nine are the value, scaled
    to nanoseconds; the remaining digits are read and dropped. *)
Fixpoint frac_digits (left : nat) (acc : Z) (s : string) : Z * string :=
  match s with
  | String c r =>
      if is_digit c then
        match left with
        | O => frac_digits O acc r
        | S k => frac_digits k (acc * 10 + (code c - 48)) r
        end
      else (acc * 10 ^ Z.of_nat left, s)
  | EmptyString => (acc * 10 ^ Z.of_nat left, s)
  end.

(** A fractional second is read after the seconds when a period or a comma
    and a digit follow. *)
Definition fraction (s : string) : Z * string :=
  match s with
  | String p (String c r) =>
      if (Ascii.eqb p "." || Ascii.eqb p ",") && is_digit c
      then frac_digits 9 0 (String c r)
      else (0, s)
  | _ => (0, s)
  end.

(** The zone of the layout element [Z07:00]: [Z], or a sign, two digits,
    a colon and two digits.  The result is the offset in seconds and the
    rest of the text. *)
Definition zone (s : string) : option (Z * string) :=
  match s with
  | String "Z" r => Some (0, r)
  | String sg (String h1 (String h2 (String ":" (String m1 (String m2 r)))))
    =>
      match num2 (String h1 (String h2 EmptyString)),
            num2 (String m1 (String m2 EmptyString)) with
      | Some (hr, _), Some (mi, _) =>
          if (hr >? 24) || (mi >? 60) then None
          else if Ascii.eqb sg "+" then Some ((hr * 60 + mi) * 60, r)
          else if Ascii.eqb sg "-" then Some (- ((hr * 60 + mi) * 60), r)
          else None
      | _, _ => None
      end
  | _ => None
  end.

Definition bind {A B} (o : option A) (f : A -> option B) : option B :=
  match o with Some a => f a | None => None end.

(** [time.Parse(time.RFC3339, s)], layout [2006-01-02T15:04:05Z07:00];
    [None] stands for a parse error. *)
Definition ParseRFC3339 (s : string) : option Time :=
  bind (num4 s) (fun '(year, s) =>
  bind (lit "-" s) (fun s =>
  bind (num2 s) (fun '(month, s) =>
  if (month <=? 0) || (12 <? month) then None else
  bind (lit "-" s) (fun s =>
  bind (num2 s) (fun '(day, s) =>
  bind (lit "T" s) (fun s =>
  bind (num12 s) (fun '(hour, s) =>
  if 24 <=? hour then None else
  bind (lit ":" s) (fun s =>
  bind (num2 s) (fun '(minute, s) =>
  if 60 <=? minute then None else
  bind (lit ":" s) (fun s =>
  bind (num2 s) (fun '(sec, s) =>
  if 60 <=? sec then None else
  let '(ns, s) := fraction s in
  bind (zone s) (fun '(offset, s) =>
  match s with
  | EmptyString =>
      if (day <? 1) || (daysIn month year <? day) then None
      else
        let t := DateUTC year month day hour minute sec ns in
        Some (mkTime (unixSec t - offset) (nanos t))
  | _ => None
  end)))))))))))).

End GoTime.

(** ** Go values as [reflect] sees them *)

Module Value.
Import Int GoTime.

(** A field of a struct: its name, the value of the key [inf] of its struct
    tag (empty when the tag has no such key), and what it holds. *)
Record field (A : Type) : Type :=
  mkField { fname : string; ftag : string; fval : A }.
Arguments mkField {A}.
Arguments fname {A}.
Arguments ftag {A}.
Arguments fval {A}.

(** Types, by [reflect.Kind].  [TTime] is the struct type whose name prints
    as [time.Time]; [TOther] stands for the kinds the decoder does not
    know (arrays, channels, functions, complex numbers, ...).  Types are
    finite trees: a type that mentions itself is not represented, and
    structs have no embedded fields. *)
Inductive ty : Type :=
| TBool
| TInt (w : width)
| TUint (w : width)
| TFloat32
| TFloat64
| TString
| TTime
| TPtr (elem : ty)
| TStruct (name : string) (fields : list (field ty))
| TSlice (elem : ty)
| TMap (key elem : ty)
| TIface
| TOther.

(** Values.  A pointer owns what it points to; a nil slice is the empty
    slice; a map is [None] when nil and otherwise the list of its entries;
    an [interface{}] is [None] when nil and otherwise the value it holds. *)
Inductive val : Type :=
| VBool (b : bool)
| VInt (w : width) (z : Z)
| VUint (w : width) (z : Z)
| VFloat32 (f : spec_float)
| VFloat64 (f : spec_float)
| VString (s : string)
| VTime (t : Time)
| VPtr (elem : ty) (p : option val)
| VStruct (name : string) (fields : list (field val))
| VSlice (elem : ty) (xs : list val)
| VMap (key elem : ty) (m : option (list (string * val)))
| VIface (v : option val)
| VOther.

(** The zero value of a type ([reflect.Zero], and what [reflect.New]
    points to). *)
Fixpoint zero (t : ty) : val :=
  match t with
  | TBool => VBool false
  | TInt w => VInt w 0
  | TUint w => VUint w 0
  | TFloat32 => VFloat32 (S754_zero false)
  | TFloat64 => VFloat64 (S754_zero false)
  | TString => VString ""
  | TTime => VTime zeroTime
  | TPtr e => VPtr e None
  | TStruct n fs =>
      VStruct n (map (fun f => mkField (fname f) (ftag f) (zero (fval f))) fs)
  | TSlice e => VSlice e []
  | TMap k e => VMap k e None
  | TIface => VIface None
  | TOther => VOther
  end.

(** A value of type [interface{}] handed to a function: [None] is nil. *)
Definition iface := option val.

(** [fv.Interface()]: the value itself, or for a field of interface type
    what the interface holds. *)
Definition Interface (v : val) : iface :=
  match v with VIface o => o | _ => Some v end.

(** A field can be set, and its value taken with [Interface], only when
    its name is exported. *)
Definition exported (name : string) : bool :=
  match name with
  | String c _ => Unicode.IsUpper c
  | EmptyString => false
  end.

(** Go maps with string keys, as entry lists with distinct keys. *)
Fixpoint lookup {A} (k : string) (m : list (string * A)) : option A :=
  match m with
  | [] => None
  | (k', v) :: r => if String.eqb k k' then Some v else lookup k r
  end.

(** [m[k] = v]: the entry of [k] is replaced where it stands, or added. *)
Fixpoint store {A} (k : string) (v : A) (m : list (string * A))
  : list (string * A) :=
  match m with
  | [] => [(k, v)]
  | (k', v') :: r =>
      if String.eqb k k' then (k, v) :: r else (k', v') :: store k v r
  end.

Definition keys {A} (m : list (string * A)) : list string := map fst m.

(** [l[i] = x] for [i] within [l]. *)
Fixpoint set_nth {A} (i : nat) (x : A) (l : list A) : list A :=
  match l, i with
  | [], _ => []
  | _ :: r, O => x :: r
  | y :: r, S j => y :: set_nth j x r
  end.

(** The functions of the Go library that turn floats into text and back,
    and [fmt.Sprint].  The decoder and the encoder only pass values
    through them; they are taken as given. *)
Record GoLib : Type := mkGoLib {
  ParseFloat : string -> spec_float;
    (* the value of [strconv.ParseFloat(s, 64)], its error dropped *)
  FormatFloat : spec_float -> string;
    (* [strconv.FormatFloat(f, 'E', -1, 64)] *)
  Sprint : iface -> string
    (* [fmt.Sprint(i)] *)
}.

End Value.

(** ** The coercion layer *)

Module Coerce.
Import Int GoTime Value.

(** [int64(f)] for a [float64]: the fraction is dropped.  Go leaves the
    result open when the value does not fit; the model takes what amd64
    gives, the least [int64]. *)
Definition truncFloat (f : spec_float) : Z :=
  match f with
  | S754_zero _ => 0
  | S754_finite s m e =>
      let mag := if 0 <=? e then Zpos m * 2 ^ e else Zpos m / 2 ^ (- e) in
      let z := if s then - mag else mag in
      if (minInt64 <=? z) && (z <=? maxInt64) then z else minInt64
  | _ => minInt64
  end.

(** [float64(n)] for an integer, rounded to nearest even. *)
Definition floatOfInt (n : Z) : spec_float := binary_normalize 53 1024 n 0 false.

(** [float32(f)], rounded to nearest even, held as the [float64] of the
    same value. *)
Definition toFloat32 (f : spec_float) : spec_float :=
  match f with
  | S754_finite s m e => binary_round 24 128 s m e
  | _ => f
  end.

Definition parseInt (i : iface) : Z :=
  match i with
  | Some (VInt _ z) => z
  | Some (VUint _ z) => int64 z
  | Some (VFloat32 f) | Some (VFloat64 f) => truncFloat f
  | Some (VString s) =>
      match Strconv.ParseInt s with
      | (val, Some _) =>
          match ParseRFC3339 s with
          | Some t => UnixNano t
          | None => val
          end
      | (val, None) => val
      end
  | _ => 0
  end.

Definition parseFloat (L : GoLib) (i : iface) : spec_float :=
  match i with
  | Some (VInt _ z) | Some (VUint _ z) => floatOfInt z
  | Some (VFloat32 f) | Some (VFloat64 f) => f
  | Some (VString s) => ParseFloat L s
  | _ => S754_zero false
  end.

(** The case [reflect.Interface] of the source cannot be met: the kind of
    [reflect.ValueOf(i)] is that of the value [i] holds. *)
Definition parseString (L : GoLib) (i : iface) : string :=
  match i with
  | Some (VInt _ z) => Strconv.FormatInt z
  | Some (VUint _ z) => Strconv.FormatUint z
  | Some (VFloat32 f) | Some (VFloat64 f) => FormatFloat L f
  | Some (VString s) => s
  | _ => Sprint L i
  end.

Definition parseTime (i : iface) : Time :=
  match i with
  | Some (VString (String c r)) =>
      match ParseRFC3339 (String c r) with
      | Some t => t
      | None => zeroTime
      end
  | _ =>
      let nano :=
        match i with
        | Some (VInt _ z) => z
        | Some (VUint _ z) => int64 z
        | Some (VFloat32 f) | Some (VFloat64 f) => truncFloat f
        | _ => 0
        end in
      Unix (Z.quot nano 1000000000) (Z.rem nano 1000000000)
  end.

End Coerce.

(** ** The decoder *)

Module Decode.
Import Int GoTime Value Coerce Strings Naming.

(** What a call leaves behind: the destination after a normal return, the
    destination and the error after a return with an error, a run-time
    panic, or no return at all within the fuel given. *)
Inductive outcome : Type :=
| Done (dst : val)
| Failed (dst : val) (err : string)
| Panic
| Diverges.

(** The outcome of a call on a part of the destination, seen from the
    whole: [k] puts the part back in place. *)
Definition under (k : val -> val) (o : outcome) : outcome :=
  match o with
  | Done d => Done (k d)
  | Failed d e => Failed (k d) e
  | Panic => Panic
  | Diverges => Diverges
  end.

(** The type of [parseSingle]: columns, values, tags, destination and
    column filter. *)
Definition decoder : Type :=
  list string -> list iface -> list (string * string) -> val ->
  list string -> outcome.

(** A loop whose body may return an error: the body runs on each element
    in turn, on the destination left by the one before, and the first
    outcome that is not a normal return ends the loop. *)
Fixpoint each {A} (body : A -> val -> outcome) (xs : list A) (dst : val)
  : outcome :=
  match xs with
  | [] => Done dst
  | x :: r =>
      match body x dst with
      | Done d => each body r d
      | o => o
      end
  end.

(** The loop of [columnIndex], from position [i]. *)
Fixpoint indexFrom (i : Z) (column : string) (columns : list string) : Z :=
  match columns with
  | [] => -1
  | col :: r => if String.eqb column col then i else indexFrom (i + 1) column r
  end.

Definition columnIndex (column : string) (columns : list string) : Z :=
  match columns with
  | [] => 0
  | _ => indexFrom 0 column columns
  end.

Definition inColumns (column : string) (columns : list string) : bool :=
  match columns with
  | [] => true
  | _ => existsb (String.eqb column) columns
  end.

(** [vals[idx]]: [None] is the index-out-of-range panic. *)
Definition index {A} (l : list A) (idx : Z) : option A :=
  if idx <? 0 then None else nth_error l (Z.to_nat idx).

(** The chain of pointers that [makePtrDstVal] allocates below a nil
    pointer to [t]: the value its loop ends on, and the way back to what
    the pointer then holds. *)
Fixpoint newChain (t : ty) : val * (val -> val) :=
  match t with
  | TPtr e =>
      let (inner, k) := newChain e in
      (inner, fun x => VPtr e (Some (k x)))
  | _ => (zero t, fun x => x)
  end.

(** [makePtrDstVal]: a nil pointer is made to point to new zero values,
    down to the first value that is not a pointer; any other value, a
    pointer that is not nil among them, is returned as it is. *)
Definition makePtrDstVal (dst : val) : val * (val -> val) :=
  match dst with
  | VPtr e None =>
      let (inner, k) := newChain e in
      (inner, fun x => VPtr e (Some (k x)))
  | _ => (dst, fun x => x)
  end.

(** [makeSliceDstVal].  [ori] is a copy of the [reflect.Value] [dst], and
    both refer to the same slice variable: after [dst.Set] it is the new
    slice that [reflect.Copy] copies onto itself, so a slice that grows
    holds [n] zero values. *)
Definition makeSliceDstVal (dst : val) (n : nat) : val :=
  match dst with
  | VSlice e xs =>
      if (List.length xs <? n)%nat then VSlice e (repeat (zero e) n) else dst
  | _ => dst
  end.

(** The first piece of a field's tag, its explicit source name. *)
Definition tagName (tag : string) : string := hd "" (Split "," tag).

(** The field that the closure [parse] of [alignToStruct] binds to [col]:
    the first field whose tag names [col] if it can be set, else the field
    called [snakeToTitle(col)] if it can be set. *)
Fixpoint findIndex {A} (p : A -> bool) (l : list A) : option nat :=
  match l with
  | [] => None
  | x :: r =>
      if p x then Some O
      else match findIndex p r with Some i => Some (S i) | None => None end
  end.

Definition canSet (fs : list (field val)) (i : option nat) : option nat :=
  match i with
  | Some n =>
      match nth_error fs n with
      | Some f => if exported (fname f) then Some n else None
      | None => None
      end
  | None => None
  end.

Definition fieldFor (fs : list (field val)) (col : string) : option nat :=
  match canSet fs (findIndex (fun f => String.eqb (tagName (ftag f)) col) fs)
  with
  | Some n => Some n
  | None =>
      canSet fs
        (findIndex (fun f => String.eqb (fname f) (snakeToTitle col)) fs)
  end.

Section Align.

(** [parseSingle], as the three helpers call it back. *)
Variable parseSingle : decoder.

Definition emptyTags : list (string * string) := [].

Definition structParse (columns : list string) (cv : string * iface)
  (dst : val) : outcome :=
  let (col, val) := cv in
  match dst with
  | VStruct name fs =>
      if negb (inColumns col columns) then Done dst
      else
        match fieldFor fs col with
        | None => Done dst
        | Some n =>
            match nth_error fs n with
            | Some f =>
                under
                  (fun x =>
                     VStruct name
                       (set_nth n (mkField (fname f) (ftag f) x) fs))
                  (parseSingle [col] [val] emptyTags (fval f) [])
            | None => Done dst
            end
        end
  | _ => Panic
  end.

Definition tagEntries (tags : list (string * string))
  : list (string * iface) :=
  map (fun tv => (fst tv, Some (VString (snd tv)))) tags.

Definition alignToStruct (cols : list string) (vals : list iface)
  (tags : list (string * string)) (dst : val) (columns : list string)
  : outcome :=
  match dst with
  | VTime _ =>
      match vals with
      | v0 :: _ => Done (VTime (parseTime v0))
      | [] => Panic
      end
  | VStruct _ _ =>
      if negb (List.length cols =? List.length vals)%nat
      then Failed dst "columns size not equal values size"
      else
        match each (structParse columns) (combine cols vals) dst with
        | Done d => each (structParse columns) (tagEntries tags) d
        | o => o
        end
  | _ => Panic
  end.

(** The body of the loop of [alignToSlice] over a column filter; [i]
    counts the positions. *)
Definition sliceByName (cols : list string) (vals : list iface)
  (tags : list (string * string)) (ic : nat * string) (dst : val)
  : outcome :=
  let (i, col) := ic in
  match dst with
  | VSlice e xs =>
      let idx := columnIndex col cols in
      let source :=
        if 0 <=? idx then
          match index vals idx with
          | Some v => inl (Some v)
          | None => inr tt
          end
        else
          match lookup col tags with
          | Some v => inl (Some (Some (VString v)))
          | None => inl None
          end in
      match source with
      | inr _ => Panic
      | inl None => Done dst
      | inl (Some val) =>
          match nth_error xs i with
          | Some x =>
              under (fun y => VSlice e (set_nth i y xs))
                (parseSingle [col] [val] emptyTags x [col])
          | None => Panic
          end
      end
  | _ => Panic
  end.

(** The body of the loop of [alignToSlice] without a filter:
    [cols[i:i+1]] and [vals[i:i+1]], a slice taken to have no room
    beyond its length. *)
Definition sliceByPosition (vals : list iface) (ic : nat * string)
  (dst : val) : outcome :=
  let (i, col) := ic in
  match dst with
  | VSlice e xs =>
      match nth_error vals i, nth_error xs i with
      | Some v, Some x =>
          under (fun y => VSlice e (set_nth i y xs))
            (parseSingle [col] [v] emptyTags x [])
      | _, _ => Panic
      end
  | _ => Panic
  end.

Definition numbered {A} (l : list A) : list (nat * A) :=
  combine (seq 0 (List.length l)) l.

Definition alignToSlice (cols : list string) (vals : list iface)
  (tags : list (string * string)) (dst : val) (columns : list string)
  : outcome :=
  match columns with
  | _ :: _ =>
      each (sliceByName cols vals tags) (numbered columns)
        (makeSliceDstVal dst (List.length columns))
  | [] =>
      each (sliceByPosition vals) (numbered cols)
        (makeSliceDstVal dst (List.length cols))
  end.

Definition mapParse (columns : list string) (kv : string * iface)
  (dst : val) : outcome :=
  let (k, v) := kv in
  match dst with
  | VMap kt et (Some entries) =>
      if negb (inColumns k columns) then Done dst
      else
        match parseSingle [k] [v] emptyTags (zero et) [] with
        | Done x => Done (VMap kt et (Some (store k x entries)))
        | Failed _ e => Failed dst e
        | Panic => Panic
        | Diverges => Diverges
        end
  | _ => Panic
  end.

Definition alignToMap (cols : list string) (vals : list iface)
  (tags : list (string * string)) (dst : val) (columns : list string)
  : outcome :=
  match dst with
  | VMap kt _ _ =>
      match kt with
      | TString =>
          if negb (List.length cols =? List.length vals)%nat
          then Failed dst "columns size not equal values size"
          else
            match each (mapParse columns) (combine cols vals) dst with
            | Done d => each (mapParse columns) (tagEntries tags) d
            | o => o
            end
      | _ => Failed dst "invalid key type"
      end
  | _ => Panic
  end.

End Align.

(** The value that [parseSingle] decodes: [vals[0]], or with a filter the
    value of the column named first in it, or the tag of that name.
    [None] is an index out of range. *)
Definition source (cols : list string) (vals : list iface)
  (tags : list (string * string)) (columns : list string) : option iface :=
  match vals with
  | [] => None
  | v0 :: _ =>
      match columns with
      | [] => Some v0
      | c :: _ =>
          let idx := columnIndex c cols in
          if 0 <=? idx then index vals idx
          else
            match lookup c tags with
            | Some v => Some (Some (VString v))
            | None => Some v0
            end
      end
  end.

(** The body of [parseSingle]; [self] stands for the calls that go through
    [parseSingle] again, its own and those of the three helpers. *)
Definition parseStep (L : GoLib) (self : decoder)
  (cols : list string) (vals : list iface) (tags : list (string * string))
  (dst : val) (columns : list string) : outcome :=
  match cols with
  | [] => Done dst
  | _ :: _ =>
      match source cols vals tags columns with
      | None => Panic
      | Some val =>
          match dst with
          | VInt w _ => Done (VInt w (swrap w (parseInt val)))
          | VUint w _ => Done (VUint w (uwrap w (parseInt val)))
          | VFloat32 _ => Done (VFloat32 (toFloat32 (parseFloat L val)))
          | VFloat64 _ => Done (VFloat64 (parseFloat L val))
          | VString _ => Done (VString (parseString L val))
          | VPtr _ _ =>
              let (inner, k) := makePtrDstVal dst in
              under k (self cols vals tags inner columns)
          | VStruct _ _ | VTime _ =>
              alignToStruct self cols vals tags dst columns
          | VSlice _ _ => alignToSlice self cols vals tags dst columns
          | VMap kt et m =>
              alignToMap self cols vals tags
                (VMap kt et (Some (match m with Some e => e | None => [] end)))
                columns
          | VIface _ =>
              if (List.length vals =? 1)%nat
                 || (List.length columns =? 1)%nat
              then match val with
                   | Some _ => Done (VIface val)
                   | None => Panic
                   end
              else
                under (fun mp => VIface (Some mp))
                  (alignToMap self cols vals tags
                     (VMap TString TIface (Some [])) columns)
          | VBool _ | VOther => Failed dst "unrecognized type"
          end
      end
  end.

(** [parseSingle].  The recursion of the source is not bounded (see
    [parseSingle_pointer_set] below): each call that goes through
    [parseSingle] again takes one unit of [fuel], and [Diverges] is the
    answer when none is left. *)
Fixpoint parseSingle (L : GoLib) (fuel : nat) : decoder :=
  match fuel with
  | O => fun _ _ _ _ _ => Diverges
  | S fuel' => parseStep L (parseSingle L fuel')
  end.

(** A query result, [models.Row]: the columns, the rows of values and the
    tags (a nil map of tags reads as the empty one). *)
Record Row : Type := mkRow {
  Columns : list string;
  Values : list (list iface);
  Tags : list (string * string)
}.

(** The loop [toslice] of [ParseResult]: row [i] into [dstVal.Index(i)]. *)
Definition rowInto (L : GoLib) (fuel : nat) (cols : list string)
  (tags : list (string * string)) (columns : list string)
  (ir : nat * list iface) (dst : val) : outcome :=
  let (i, vs) := ir in
  match dst with
  | VSlice e xs =>
      match nth_error xs i with
      | Some x =>
          under (fun y => VSlice e (set_nth i y xs))
            (parseSingle L fuel cols vs tags x columns)
      | None => Panic
      end
  | _ => Panic
  end.

Definition toslice (L : GoLib) (fuel : nat) (cols : list string)
  (vals : list (list iface)) (tags : list (string * string))
  (columns : list string) (dstVal : val) : outcome :=
  each (rowInto L fuel cols tags columns) (numbered vals) dstVal.

(** The test on a filter of one name made at the start of [ParseResult]. *)
Definition missing (serie : Row) (columns : list string) : option string :=
  match columns with
  | [c] =>
      match lookup c (Tags serie) with
      | Some _ => None
      | None => if inColumns c (Columns serie) then None else Some c
      end
  | _ => None
  end.

(** [ParseResult].  [dst] is what the caller passes; it can be set when it
    is a pointer that is not nil, and the outcome then holds that pointer
    with what it points to after the call. *)
Definition ParseResult (L : GoLib) (fuel : nat) (dst : val) (serie : Row)
  (columns : list string) : outcome :=
  let cols := Columns serie in
  let vals := Values serie in
  let tags := Tags serie in
  match missing serie columns with
  | Some c => Failed dst ("column not exists: `" ++ c ++ "`")
  | None =>
      match dst with
      | VPtr t (Some target) =>
          let (dstVal, k) := makePtrDstVal target in
          under (fun x => VPtr t (Some (k x)))
            match dstVal with
            | VIface _ =>
                match vals with
                | [] => Done dstVal
                | [row] => parseSingle L fuel cols row tags dstVal []
                | _ =>
                    match
                      toslice L fuel cols vals tags columns
                        (VSlice TIface
                           (repeat (VIface None) (List.length vals)))
                    with
                    | Done slice => Done (VIface (Some slice))
                    | Failed _ e => Failed dstVal e
                    | o => o
                    end
                end
            | VSlice _ _ =>
                toslice L fuel cols vals tags columns
                  (makeSliceDstVal dstVal (List.length vals))
            | _ =>
                match vals with
                | row :: _ => parseSingle L fuel cols row tags dstVal columns
                | [] => Panic
                end
            end
      | _ => Failed dst "dst cannot be setted"
      end
  end.

End Decode.

(** ** The encoder *)

Module Encode.
Import Int GoTime Value Coerce Strings Naming Decode.

(** What the encoder hands to [client.NewPoint], and what a point is made
    of: a measurement, tags, fields and a time. *)
Record Point : Type := mkPoint {
  measurement : string;
  tagSet : list (string * string);
  fieldSet : list (string * iface);
  timestamp : Time
}.

(** Where the loop of [ToPoint] sends a field. *)
Inductive route : Type :=
| Skipped
| AsTime (t : Time)
| AsTag (name value : string)
| AsField (name : string) (value : iface)
| Panics.

(** The name under which a field is written: the first piece of its tag,
    or [titleToSnake] of its own name when that piece is empty. *)
Definition pointName (f : field val) : string :=
  let name := tagName (ftag f) in
  if String.eqb name "" then titleToSnake (fname f) else name.

(** The body of the loop.  [fv.Interface()] panics on a field that is not
    exported, and the assertion [.(time.Time)] on any other value. *)
Definition routeOf (L : GoLib) (f : field val) : route :=
  if String.eqb (ftag f) "-" then Skipped
  else if String.eqb (fname f) "Time" || String.eqb (ftag f) "time" then
    if exported (fname f) then
      match Interface (fval f) with
      | Some (VTime t) => AsTime t
      | _ => Panics
      end
    else Panics
  else if exported (fname f) then
    if HasSuffix (ftag f) ",tag"
    then AsTag (pointName f) (parseString L (Interface (fval f)))
    else AsField (pointName f) (Interface (fval f))
  else Panics.

(** The loop over the fields, from the point built so far; [None] is a
    panic. *)
Fixpoint encodeFields (L : GoLib) (fs : list (field val)) (p : Point)
  : option Point :=
  match fs with
  | [] => Some p
  | f :: r =>
      match routeOf L f with
      | Skipped => encodeFields L r p
      | AsTime t =>
          encodeFields L r
            (mkPoint (measurement p) (tagSet p) (fieldSet p) t)
      | AsTag n v =>
          encodeFields L r
            (mkPoint (measurement p) (store n v (tagSet p)) (fieldSet p)
               (timestamp p))
      | AsField n v =>
          encodeFields L r
            (mkPoint (measurement p) (tagSet p) (store n v (fieldSet p))
               (timestamp p))
      | Panics => None
      end
  end.

(** The measurement when the type has no method [Measurement]: the type's
    name after its last period, in snake case. *)
Definition typeMeasurement (name : string) : string :=
  titleToSnake
    (match after_last "." name with Some t => t | None => name end).

(** The measurement: what the method [Measurement] returns when the
    value has one, else the name of the type. *)
Definition measurementOf (method : option string) (name : string)
  : string :=
  match method with
  | Some s => s
  | None => typeMeasurement name
  end.

(** What [ToPoint] returns: a point, no point (nil), or a panic. *)
Inductive encoded : Type :=
| Returns (p : option Point)
| EncodePanic.

(** [reflect.Indirect(reflect.ValueOf(structure))]; [None] is the zero
    [reflect.Value] that a nil pointer gives. *)
Definition Indirect (v : val) : option val :=
  match v with
  | VPtr _ p => p
  | _ => Some v
  end.

Section ToPoint.

Variable L : GoLib.

(** [client.NewPoint] of the InfluxDB client library: the point, or
    [None] when it returns an error and no point. *)
Variable NewPoint :
  string -> list (string * string) -> list (string * iface) -> Time ->
  option Point.

(** [ToPoint].  [now] is what [time.Now()] reads; [method] is the string
    that the method [Measurement] of the value (or of what it points to)
    returns, when there is one.  A nil [structure] panics in
    [MethodByName]; [time.Time] is a struct of fields that are not
    exported. *)
Definition ToPoint (now : Time) (method : option string)
  (structure : iface) : encoded :=
  match structure with
  | None => EncodePanic
  | Some v =>
      match Indirect v with
      | Some (VStruct name fs) =>
          match
            encodeFields L fs
              (mkPoint (measurementOf method name) [] [] now)
          with
          | Some p =>
              Returns
                (NewPoint (measurement p) (tagSet p) (fieldSet p)
                   (timestamp p))
          | None => EncodePanic
          end
      | Some (VTime _) => EncodePanic
      | _ => Returns None
      end
  end.

End ToPoint.

(** The constructor as the client library has it, as far as the results
    below need it: [models.NewPoint] first refuses a point without fields
    ([ErrPointMustHaveAField]), and [client.NewPoint] then returns no point;
    a point it accepts is made of the arguments.  Its other refusals (a
    field that is NaN or infinite, a field without a name, a time out of
    range, a key too long) are left out. *)
Definition libraryNewPoint (m : string) (tags : list (string * string))
  (fields : list (string * iface)) (t : Time) : option Point :=
  match fields with
  | [] => None
  | _ :: _ => Some (mkPoint m tags fields t)
  end.


(** The names written as tags and as fields. *)
Fixpoint tagNames (L : GoLib) (fs : list (field val)) : list string :=
  match fs with
  | [] => []
  | f :: r =>
      match routeOf L f with
      | AsTag n _ => n :: tagNames L r
      | _ => tagNames L r
      end
  end.

Fixpoint fieldNames (L : GoLib) (fs : list (field val)) : list string :=
  match fs with
  | [] => []
  | f :: r =>
      match routeOf L f with
      | AsField n _ => n :: fieldNames L r
      | _ => fieldNames L r
      end
  end.

End Encode.

(** ** Notions used to state the results *)

Module Shapes.
Import Int GoTime Value Coerce Decode.

(** A library under which the model runs on inputs that hold no float and
    go through no [fmt.Sprint]: on such inputs no result depends on it. *)
Definition textless : GoLib :=
  mkGoLib (fun _ => S754_zero false) (fun _ => "") (fun _ => "").

(** The [float64] nearest to 3.7: [0x1D99999999999A * 2^-51]. *)
Definition float_3_7 : spec_float :=
  S754_finite false 8331659310635418 (-51).

(** The scalar kinds, and what [parseSingle] writes into one of them from
    the source value [i]. *)
Definition scalar (dst : val) : bool :=
  match dst with
  | VInt _ _ | VUint _ _ | VFloat32 _ | VFloat64 _ | VString _ => true
  | _ => false
  end.

Definition coerced (L : GoLib) (dst : val) (i : iface) : val :=
  match dst with
  | VInt w _ => VInt w (swrap w (parseInt i))
  | VUint w _ => VUint w (uwrap w (parseInt i))
  | VFloat32 _ => VFloat32 (toFloat32 (parseFloat L i))
  | VFloat64 _ => VFloat64 (parseFloat L i)
  | VString _ => VString (parseString L i)
  | _ => dst
  end.

(** The two shapes that [ParseResult] fills from all the rows.  It
    switches on [fst (makePtrDstVal target)], where [target] is what the
    pointer passed by the caller points to. *)
Definition collection (v : val) : bool :=
  match v with
  | VIface _ | VSlice _ _ => true
  | _ => false
  end.

(** The shapes on which the decoder compares the number of values with the
    number of columns: a struct other than [time.Time], and a map with
    string keys. *)
Definition countsValues (v : val) : bool :=
  match v with
  | VStruct _ _ => true
  | VMap TString _ _ => true
  | _ => false
  end.

(** A nil map is made before its keys and the counts are looked at. *)
Definition made (v : val) : val :=
  match v with
  | VMap kt et None => VMap kt et (Some [])
  | _ => v
  end.

(** An outcome and the outcome of the same call with more fuel: the second
    is the first, unless the first ran out of fuel. *)
Definition settles (o o' : outcome) : Prop := o = Diverges \/ o = o'.

Definition improves (dec dec' : decoder) : Prop :=
  forall cols vals tags dst columns,
    settles (dec cols vals tags dst columns) (dec' cols vals tags dst columns).

(** The field of a struct replaced by [x]. *)
Definition withField (name : string) (fs : list (field val)) (n : nat)
  (f : field val) (x : val) : val :=
  VStruct name (set_nth n (mkField (fname f) (ftag f) x) fs).

(** One source value [i] of name [col] bound into the struct [name fs]:
    the field that [col] selects is decoded from [i] alone, and no other
    field is touched; [dec] is the decoder of the field. *)
Definition boundFrom (dec : decoder) (name : string) (fs : list (field val)) (col : string) (i : iface)
  : outcome :=
  match fieldFor fs col with
  | Some n =>
      match nth_error fs n with
      | Some f =>
          under (withField name fs n f) (dec [col] [i] emptyTags (fval f) [])
      | None => Done (VStruct name fs)
      end
  | None => Done (VStruct name fs)
  end.

End Shapes.

(** ** Notions used to state further results *)

Module Laws.
Import Unicode Strings Naming Int GoTime Value Coerce Decode Encode Shapes.

(** A name in title case, as Go field and type names are written: words
    that start with an upper-case letter and go on with lower-case letters
    and digits, no two upper-case letters in a row. *)
Fixpoint title_tail (lastIsUpper : bool) (s : string) : bool :=
  match s with
  | EmptyString => true
  | String c r =>
      if is_upper_letter c then negb lastIsUpper && title_tail true r
      else piece_byte c && title_tail false r
  end.

Definition title_name (s : string) : bool :=
  match s with
  | EmptyString => false
  | String c r => is_upper_letter c && title_tail true r
  end.

(** [snakeToTitle] past the first byte of a piece: the rest of the piece
    after [prev], then the pieces that follow. *)
Definition title_rest (prev : ascii) (s : string) : string :=
  match Split "_" s with
  | seg :: segs => title_from prev seg ++ String.concat "" (map Title segs)
  | [] => ""
  end.

Definition not_underscore (c : ascii) : bool := negb (Ascii.eqb c "_").










(** The time given by the last field of a record that is routed as the
    time of the point. *)
Fixpoint lastTime (L : GoLib) (fs : list (field val)) : option Time :=
  match fs with
  | [] => None
  | f :: r =>
      match lastTime L r with
      | Some t => Some t
      | None => match routeOf L f with AsTime t => Some t | _ => None end
      end
  end.




(** A scalar that its type can hold; [float32] is left out. *)
Definition fits (v : val) : bool :=
  match v with
  | VInt w z => (- 2 ^ (bits w - 1) <=? z) && (z <? 2 ^ (bits w - 1))
  | VUint w z => (0 <=? z) && (z <? 2 ^ bits w)
  | VFloat64 _ | VString _ => true
  | _ => false
  end.

(** A scalar that comes back from the text that [parseString] writes for a
    tag, whatever the float conversions are: a string or a signed
    integer. *)
Definition tagFits (v : val) : bool :=
  match v with
  | VInt _ _ => fits v
  | VString _ => true
  | _ => false
  end.

(** A field that the encoder writes and that the decoder finds again: it
    is exported, is neither skipped nor the time, has an explicit name in
    its tag or a name in title case, and holds a scalar that fits. *)
Definition portable (f : field val) : bool :=
  exported (fname f)
  && negb (String.eqb (ftag f) "-")
  && negb (String.eqb (fname f) "Time" || String.eqb (ftag f) "time")
  && (negb (String.eqb (tagName (ftag f)) "") || title_name (fname f))
  && (if HasSuffix (ftag f) ",tag" then tagFits (fval f) else fits (fval f)).








End Laws.

(** * Results *)

(** ** Naming *)

Module NamingFacts.
Import Unicode Strings Naming.

Ltac by_bytes c :=
  destruct c as [[] [] [] [] [] [] [] []]; vm_compute;
  repeat split; congruence.

Lemma lower_title (c : ascii) :
  is_lower_letter c = true ->
  IsUpper (ToTitle c) = true /\ ToLower (ToTitle c) = c.
Proof. by_bytes c. Qed.

Lemma piece_byte_plain (c : ascii) :
  piece_byte c = true ->
  IsUpper c = false /\ isSeparator c = false.
Proof. by_bytes c. Qed.

Lemma lower_is_piece (c : ascii) :
  is_lower_letter c = true -> piece_byte c = true.
Proof. unfold piece_byte. intros ->. reflexivity. Qed.

Lemma append_empty (s : string) : s ++ "" = s.
Proof. induction s; simpl; congruence. Qed.

Lemma append_assoc (a b c : string) : (a ++ b) ++ c = a ++ (b ++ c).
Proof. induction a; simpl; congruence. Qed.

(** Inside a piece nothing is a separator: [Title] leaves the bytes after
    the first as they are. *)
Lemma title_from_piece (r : string) :
  forall c, isSeparator c = false -> all_bytes piece_byte r = true ->
            title_from c r = r.
Proof.
  induction r as [|d r IH]; intros c Hc Hr; simpl in *.
  - reflexivity.
  - apply andb_prop in Hr as [Hd Hr]. rewrite Hc.
    f_equal. apply IH; [apply (piece_byte_plain d Hd) | exact Hr].
Qed.

Lemma Title_piece (c : ascii) (r : string) :
  piece_ok (String c r) = true -> Title (String c r) = String (ToTitle c) r.
Proof.
  simpl. intros H. apply andb_prop in H as [Hc Hr].
  unfold Title. simpl. f_equal.
  apply title_from_piece; [|exact Hr].
  apply (piece_byte_plain c (lower_is_piece c Hc)).
Qed.

(** [titleToSnake] copies a run of lower-case letters and digits, and
    [lastIsUpper] is false after a run that is not empty. *)
Lemma snake_from_run (r t : string) :
  forall b, all_bytes piece_byte r = true ->
    snake_from b (r ++ t)
    = r ++ snake_from (match r with EmptyString => b | _ => false end) t.
Proof.
  induction r as [|d r IH]; intros b Hr; simpl in *.
  - reflexivity.
  - apply andb_prop in Hr as [Hd Hr].
    destruct (piece_byte_plain d Hd) as [-> _].
    f_equal. rewrite (IH false Hr). destruct r; reflexivity.
Qed.

Lemma snake_from_piece (c : ascii) (r t : string) (b : bool) :
  piece_ok (String c r) = true ->
  snake_from b (Title (String c r) ++ t)
  = lead b ++ String c r
    ++ snake_from (match r with EmptyString => true | _ => false end) t.
Proof.
  intros H. rewrite (Title_piece c r H).
  simpl in H. apply andb_prop in H as [Hc Hr].
  destruct (lower_title c Hc) as [Hu Hl].
  simpl. rewrite Hu, Hl, (snake_from_run r t true Hr).
  destruct b; reflexivity.
Qed.

Lemma snake_from_pieces (segs : list string) :
  forall b, pieces_ok segs = true ->
    snake_from b (String.concat "" (map Title segs))
    = lead b ++ String.concat "_" segs.
Proof.
  induction segs as [|seg rest IH]; intros b H.
  - discriminate.
  - destruct rest as [|seg' rest'].
    + simpl in H. destruct seg as [|c r]; [discriminate|].
      change (String.concat "" (map Title [String c r]))
        with (Title (String c r)).
      rewrite <- (append_empty (Title (String c r))).
      rewrite (snake_from_piece c r "" b H). simpl.
      rewrite append_empty. reflexivity.
    + change (pieces_ok (seg :: seg' :: rest'))
        with (piece_ok seg && (2 <=? String.length seg)%nat
              && pieces_ok (seg' :: rest')) in H.
      apply andb_prop in H as [H Hrest]. apply andb_prop in H as [Hseg Hlen].
      destruct seg as [|c r]; [discriminate|].
      destruct r as [|d r]; [discriminate|].
      change (String.concat "" (map Title (String c (String d r) :: seg' :: rest')))
        with (Title (String c (String d r)) ++ ""
              ++ String.concat "" (map Title (seg' :: rest'))).
      change ("" ++ String.concat "" (map Title (seg' :: rest')))
        with (String.concat "" (map Title (seg' :: rest'))).
      rewrite (snake_from_piece c (String d r) _ b Hseg).
      rewrite (IH false Hrest).
      change (String.concat "_" (String c (String d r) :: seg' :: rest'))
        with (String c (String d r) ++ "_" ++ String.concat "_" (seg' :: rest')).
      reflexivity.
Qed.

Lemma Split_nonempty (sep : ascii) (s : string) : Split sep s <> [].
Proof.
  induction s as [|c r IH]; simpl; [discriminate|].
  destruct (Ascii.eqb c sep); [discriminate|].
  destruct (Split sep r); discriminate.
Qed.

(** Joining the pieces of a split gives the string back. *)
Lemma concat_Split (s : string) : String.concat "_" (Split "_" s) = s.
Proof.
  induction s as [|c r IH]; [reflexivity|].
  simpl Split. destruct (Ascii.eqb_spec c "_") as [->|Hc].
  - pose proof (Split_nonempty "_" r) as Hne.
    destruct (Split "_" r) as [|x xs] eqn:E; [congruence|].
    change (String.concat "_" ("" :: x :: xs))
      with ("" ++ "_" ++ String.concat "_" (x :: xs)).
    rewrite IH. reflexivity.
  - pose proof (Split_nonempty "_" r) as Hne.
    destruct (Split "_" r) as [|x xs] eqn:E; [congruence|].
    destruct xs as [|y ys].
    + simpl in *. congruence.
    + change (String.concat "_" (String c x :: y :: ys))
        with (String c (x ++ "_" ++ String.concat "_" (y :: ys))).
      change (String.concat "_" (x :: y :: ys))
        with (x ++ "_" ++ String.concat "_" (y :: ys)) in IH.
      congruence.
Qed.

(** C2, as the code has it.  A snake-case name made of pieces that start
    with a lower-case letter, go on with lower-case letters and digits, and
    have two bytes or more except for the last one, is given back by
    [titleToSnake] after [snakeToTitle]. *)
Theorem snake_title_round_trip (s : string) :
  round_trip_snake s = true -> titleToSnake (snakeToTitle s) = s.
Proof.
  unfold round_trip_snake, titleToSnake, snakeToTitle, Join. intros H.
  rewrite (snake_from_pieces _ true H). simpl. apply concat_Split.
Qed.

Lemma snake_title_round_trip_witness :
  round_trip_snake "measurement_name2_x" = true
  /\ titleToSnake (snakeToTitle "measurement_name2_x")
     = "measurement_name2_x".
Proof.
  split; [reflexivity | apply snake_title_round_trip; reflexivity].
Defined.

(** C2 as the specification words it fails: ["a_b"] is lower case, split
    by an underscore, with no underscore in front or at the end, and comes
    back as ["ab"], because no underscore is put between two upper-case
    letters that follow each other. *)
Lemma snake_title_one_letter_piece :
  plain_snake "a_b" = true
  /\ titleToSnake (snakeToTitle "a_b") = "ab"
  /\ titleToSnake (snakeToTitle "a_b") <> "a_b".
Proof. repeat split; try reflexivity. vm_compute. discriminate. Qed.

End NamingFacts.

(** ** The coercion layer *)

Module CoerceFacts.
Import Int GoTime Value Coerce Shapes.

(** The literal [float_3_7] is a [float64] and no [float64] is nearer to
    3.7: its distance to 37/10 is at most half a unit in the last place,
    [2^-52]. *)
Lemma float_3_7_nearest :
  valid_binary 53 1024 float_3_7 = true
  /\ Z.abs (10 * 8331659310635418 - 37 * 2 ^ 51) <= 5.
Proof. split; [reflexivity | vm_compute; intro H; discriminate H]. Qed.

(** C7.  [parseInt] on the three inputs of the specification: the text of
    an RFC 3339 instant gives its Unix time in nanoseconds, the text of a
    number gives the number, and a float loses its fraction. *)
Theorem parseInt_examples :
  parseInt (Some (VString "2021-01-02T15:04:05Z")) = 1609599845000000000
  /\ parseInt (Some (VString "42")) = 42
  /\ parseInt (Some (VFloat64 float_3_7)) = 3.
Proof. repeat split; vm_compute; reflexivity. Qed.

(** Truncation is toward zero on negative floats as well. *)
Lemma parseInt_negative_float :
  parseInt (Some (VFloat64 (SFopp float_3_7))) = -3.
Proof. vm_compute. reflexivity. Qed.

End CoerceFacts.

(** ** The decoder *)

Module DecodeFacts.
Import Int GoTime Value Coerce Strings Naming Decode Shapes.

Lemma each_app {A} (body : A -> val -> outcome) (xs ys : list A) :
  forall d,
    each body (xs ++ ys)%list d
    = match each body xs d with
      | Done d' => each body ys d'
      | o => o
      end.
Proof.
  induction xs as [|x xs IH]; intros d; simpl; [reflexivity|].
  destruct (body x d); try reflexivity. apply IH.
Qed.

(** A loop all of whose steps leave the destination as it is. *)
Lemma each_idle {A} (body : A -> val -> outcome) (xs : list A) (d : val) :
  (forall x, In x xs -> body x d = Done d) -> each body xs d = Done d.
Proof.
  induction xs as [|x xs IH]; intros H; simpl; [reflexivity|].
  rewrite (H x (or_introl eq_refl)). apply IH.
  intros y Hy. apply H. right. exact Hy.
Qed.

Lemma indexFrom_absent (c : string) (cols : list string) :
  forall i, ~ In c cols -> indexFrom i c cols = -1.
Proof.
  induction cols as [|col r IH]; intros i H; simpl; [reflexivity|].
  destruct (String.eqb_spec c col) as [->|Hne].
  - exfalso. apply H. left. reflexivity.
  - apply IH. intros Hin. apply H. right. exact Hin.
Qed.

Lemma columnIndex_absent (c : string) (cols : list string) :
  cols <> [] -> ~ In c cols -> columnIndex c cols = -1.
Proof.
  intros Hne H. destruct cols as [|col r]; [congruence|].
  unfold columnIndex. apply indexFrom_absent. exact H.
Qed.

Lemma inColumns_absent (c : string) (cols : list string) :
  cols <> [] -> ~ In c cols -> inColumns c cols = false.
Proof.
  intros Hne H. destruct cols as [|col r]; [congruence|].
  unfold inColumns.
  destruct (existsb (String.eqb c) (col :: r)) eqn:E; [|reflexivity].
  apply existsb_exists in E as [x [Hx Hc]].
  apply String.eqb_eq in Hc. subst x. contradiction.
Qed.

Lemma inColumns_single (c d : string) :
  inColumns d [c] = String.eqb d c.
Proof. simpl. apply orb_false_r. Qed.

(** A map entry found by [lookup] splits the entry list around it. *)
Lemma lookup_split {A} (c : string) (v : A) (m : list (string * A)) :
  lookup c m = Some v ->
  exists pre post, m = (pre ++ (c, v) :: post)%list /\ ~ In c (keys pre).
Proof.
  induction m as [|[k x] r IH]; simpl; [discriminate|].
  destruct (String.eqb_spec c k) as [->|Hne].
  - intros [= ->]. exists [], r. split; [reflexivity | intros []].
  - intros H. destruct (IH H) as (pre & post & -> & Hpre).
    exists ((k, x) :: pre), post. split; [reflexivity|].
    simpl. intros [Hk | Hin]; [congruence | contradiction].
Qed.


(** *** Fuel *)

Lemma settles_refl (o : outcome) : settles o o.
Proof. right. reflexivity. Qed.

Lemma settles_under (k : val -> val) (o o' : outcome) :
  settles o o' -> settles (under k o) (under k o').
Proof. intros [-> | ->]; [left | right]; reflexivity. Qed.

Lemma settles_each {A} (body body' : A -> val -> outcome) (xs : list A) :
  (forall x d, settles (body x d) (body' x d)) ->
  forall d, settles (each body xs d) (each body' xs d).
Proof.
  intros H. induction xs as [|x xs IH]; intros d; simpl.
  - apply settles_refl.
  - destruct (H x d) as [E | E]; rewrite E; [left; reflexivity|].
    destruct (body' x d); try apply settles_refl. apply IH.
Qed.

(** Two loops in a row, as [alignToStruct] and [alignToMap] have them. *)
Lemma settles_each_twice {A} (body body' : A -> val -> outcome)
  (xs ys : list A) (d : val) :
  (forall x d, settles (body x d) (body' x d)) ->
  settles
    (match each body xs d with Done d' => each body ys d' | o => o end)
    (match each body' xs d with Done d' => each body' ys d' | o => o end).
Proof.
  intros H.
  destruct (settles_each body body' xs H d) as [E | E]; rewrite E;
    [left; reflexivity|].
  destruct (each body' xs d); try apply settles_refl.
  apply settles_each, H.
Qed.

Lemma settles_structParse (dec dec' : decoder) (columns : list string)
  (cv : string * iface) (d : val) :
  improves dec dec' ->
  settles (structParse dec columns cv d) (structParse dec' columns cv d).
Proof.
  intros H. unfold structParse. destruct cv as [col v].
  destruct d; try apply settles_refl.
  destruct (negb (inColumns col columns)); [apply settles_refl|].
  destruct (fieldFor fields col) as [n|]; [|apply settles_refl].
  destruct (nth_error fields n) as [f|]; [|apply settles_refl].
  apply settles_under, H.
Qed.

Lemma settles_mapParse (dec dec' : decoder) (columns : list string)
  (kv : string * iface) (d : val) :
  improves dec dec' ->
  settles (mapParse dec columns kv d) (mapParse dec' columns kv d).
Proof.
  intros H. unfold mapParse. destruct kv as [k v].
  destruct d; try apply settles_refl.
  destruct m as [entries|]; [|apply settles_refl].
  destruct (negb (inColumns k columns)); [apply settles_refl|].
  destruct (H [k] [v] emptyTags (zero elem) []) as [-> | ->];
    [left; reflexivity | apply settles_refl].
Qed.

Lemma settles_sliceByName (dec dec' : decoder) (cols : list string)
  (vals : list iface) (tags : list (string * string)) (ic : nat * string)
  (d : val) :
  improves dec dec' ->
  settles (sliceByName dec cols vals tags ic d)
          (sliceByName dec' cols vals tags ic d).
Proof.
  intros H. unfold sliceByName. destruct ic as [i col].
  destruct d; try apply settles_refl.
  match goal with
  | |- settles (match ?src with _ => _ end) _ => destruct src as [[val|]|]
  end; try apply settles_refl.
  destruct (nth_error xs i); [|apply settles_refl].
  apply settles_under, H.
Qed.

Lemma settles_sliceByPosition (dec dec' : decoder) (vals : list iface)
  (ic : nat * string) (d : val) :
  improves dec dec' ->
  settles (sliceByPosition dec vals ic d) (sliceByPosition dec' vals ic d).
Proof.
  intros H. unfold sliceByPosition. destruct ic as [i col].
  destruct d; try apply settles_refl.
  destruct (nth_error vals i); [|apply settles_refl].
  destruct (nth_error xs i); [|apply settles_refl].
  apply settles_under, H.
Qed.

Lemma settles_alignToStruct (dec dec' : decoder) cols vals tags d columns :
  improves dec dec' ->
  settles (alignToStruct dec cols vals tags d columns)
          (alignToStruct dec' cols vals tags d columns).
Proof.
  intros H. unfold alignToStruct. destruct d; try apply settles_refl.
  destruct (negb (List.length cols =? List.length vals)%nat);
    [apply settles_refl|].
  apply settles_each_twice. intros x d'. apply settles_structParse, H.
Qed.

Lemma settles_alignToMap (dec dec' : decoder) cols vals tags d columns :
  improves dec dec' ->
  settles (alignToMap dec cols vals tags d columns)
          (alignToMap dec' cols vals tags d columns).
Proof.
  intros H. unfold alignToMap. destruct d; try apply settles_refl.
  destruct key; try apply settles_refl.
  destruct (negb (List.length cols =? List.length vals)%nat);
    [apply settles_refl|].
  apply settles_each_twice. intros x d'. apply settles_mapParse, H.
Qed.

Lemma settles_alignToSlice (dec dec' : decoder) cols vals tags d columns :
  improves dec dec' ->
  settles (alignToSlice dec cols vals tags d columns)
          (alignToSlice dec' cols vals tags d columns).
Proof.
  intros H. unfold alignToSlice. destruct columns.
  - apply settles_each. intros x d'. apply settles_sliceByPosition, H.
  - apply settles_each. intros x d'. apply settles_sliceByName, H.
Qed.

Lemma improves_parseStep (L : GoLib) (dec dec' : decoder) :
  improves dec dec' -> improves (parseStep L dec) (parseStep L dec').
Proof.
  intros H cols vals tags dst columns. unfold parseStep.
  destruct cols as [|col r]; [apply settles_refl|].
  destruct (source (col :: r) vals tags columns) as [val|];
    [|apply settles_refl].
  destruct dst; try apply settles_refl.
  - destruct (makePtrDstVal (VPtr elem p)) as [inner k].
    apply settles_under, H.
  - apply settles_alignToStruct, H.
  - apply settles_alignToSlice, H.
  - apply settles_alignToMap, H.
  - destruct ((List.length vals =? 1)%nat || (List.length columns =? 1)%nat);
      [apply settles_refl|].
    apply settles_under, settles_alignToMap, H.
Qed.

(** One more unit of fuel changes an outcome only from [Diverges]. *)
Lemma parseSingle_fuel_step (L : GoLib) (fuel : nat) :
  improves (parseSingle L fuel) (parseSingle L (S fuel)).
Proof.
  induction fuel as [|fuel IH].
  - intros cols vals tags dst columns. left. reflexivity.
  - change (improves (parseStep L (parseSingle L fuel))
                     (parseStep L (parseSingle L (S fuel)))).
    apply improves_parseStep, IH.
Qed.

(** An outcome reached with some fuel is the outcome with any more fuel. *)
Lemma parseSingle_more_fuel (L : GoLib) (fuel more : nat)
  (cols : list string) (vals : list iface) (tags : list (string * string))
  (dst : val) (columns : list string) :
  parseSingle L fuel cols vals tags dst columns <> Diverges ->
  parseSingle L (more + fuel) cols vals tags dst columns
  = parseSingle L fuel cols vals tags dst columns.
Proof.
  intros Hret. induction more as [|more IH]; [reflexivity|].
  destruct (parseSingle_fuel_step L (more + fuel) cols vals tags dst columns)
    as [E | E].
  - rewrite IH in E. contradiction.
  - rewrite <- IH. symmetry. exact E.
Qed.

(** *** The marker of ignored fields *)

(** C1 fails on the code.  The decoder has no case for the marker ["-"]:
    a field so tagged is written from the column that its name stands
    for, with or without a filter, and from a column called ["-"]. *)
Theorem decode_writes_ignored_field (L : GoLib) (fuel : nat) :
  let dst := VStruct "Cpu" [mkField "Load" "-" (VInt W64 0)] in
  let written := VStruct "Cpu" [mkField "Load" "-" (VInt W64 5)] in
  parseSingle L (S (S fuel)) ["load"] [Some (VInt W64 5)] [] dst []
  = Done written
  /\ parseSingle L (S (S fuel)) ["load"] [Some (VInt W64 5)] [] dst ["load"]
     = Done written
  /\ parseSingle L (S (S fuel)) ["-"] [Some (VInt W64 5)] [] dst []
     = Done written.
Proof. repeat split; reflexivity. Qed.

(** *** The filter of one name *)

(** C5, as the code has it.  When the result has at least one column, a
    filter of one name that is neither a column nor a tag ends
    [ParseResult] with the error [column not exists], before the
    destination is looked at: it is returned as it was. *)
Theorem ParseResult_missing_column (L : GoLib) (fuel : nat) (dst : val)
  (serie : Row) (c : string) :
  Columns serie <> [] ->
  ~ In c (Columns serie) ->
  lookup c (Tags serie) = None ->
  ParseResult L fuel dst serie [c]
  = Failed dst ("column not exists: `" ++ c ++ "`").
Proof.
  intros Hne Hcol Htag. unfold ParseResult, missing.
  rewrite Htag, (inColumns_absent c _ Hne Hcol). reflexivity.
Qed.

Lemma ParseResult_missing_column_witness :
  ParseResult textless 3 (VPtr (TInt W64) (Some (VInt W64 7)))
    (mkRow ["time"; "value"] [[Some (VString "1"); Some (VString "2")]]
       [("host", "a")])
    ["region"]
  = Failed (VPtr (TInt W64) (Some (VInt W64 7)))
      "column not exists: `region`".
Proof.
  apply (ParseResult_missing_column textless 3
           (VPtr (TInt W64) (Some (VInt W64 7)))
           (mkRow ["time"; "value"]
              [[Some (VString "1"); Some (VString "2")]] [("host", "a")])
           "region").
  - simpl. discriminate.
  - simpl. intros [H | [H | []]]; discriminate H.
  - reflexivity.
Defined.

(** C5 as the specification words it fails on a result without columns:
    [inColumns] takes an empty list for "all", so the name passes the test
    and [ParseResult] returns without an error. *)
Lemma ParseResult_without_columns :
  let dst := VPtr (TInt W64) (Some (VInt W64 7)) in
  let serie := mkRow [] [[]] [("host", "a")] in
  ~ In "region" (Columns serie)
  /\ lookup "region" (Tags serie) = None
  /\ ParseResult textless 3 dst serie ["region"] = Done dst.
Proof. repeat split. intros []. Qed.

(** *** The number of values *)

Lemma parseSingle_counts (L : GoLib) (fuel : nat) (cols : list string)
  (vals : list iface) (tags : list (string * string)) (dst : val)
  (columns : list string) :
  cols <> [] ->
  source cols vals tags columns <> None ->
  List.length cols <> List.length vals ->
  countsValues dst = true ->
  parseSingle L (S fuel) cols vals tags dst columns
  = Failed (made dst) "columns size not equal values size".
Proof.
  intros Hc Hs Hl Hk. apply Nat.eqb_neq in Hl.
  destruct cols as [|col r]; [congruence|].
  cbn [parseSingle]. unfold parseStep.
  destruct (source (col :: r) vals tags columns); [|congruence].
  destruct dst; try discriminate Hk.
  - unfold alignToStruct. rewrite Hl. reflexivity.
  - destruct key; try discriminate Hk.
    unfold alignToMap. rewrite Hl. destruct m; reflexivity.
Qed.

Lemma parseSingle_nil_pointer (L : GoLib) (fuel : nat) (cols : list string)
  (vals : list iface) (tags : list (string * string)) (e : ty)
  (columns : list string) :
  cols <> [] ->
  source cols vals tags columns <> None ->
  parseSingle L (S fuel) cols vals tags (VPtr e None) columns
  = under (snd (makePtrDstVal (VPtr e None)))
      (parseSingle L fuel cols vals tags (fst (makePtrDstVal (VPtr e None)))
         columns).
Proof.
  intros Hc Hs. destruct cols as [|col r]; [congruence|].
  cbn [parseSingle]. unfold parseStep.
  destruct (source (col :: r) vals tags columns); [|congruence].
  destruct (makePtrDstVal (VPtr e None)) as [inner k]. reflexivity.
Qed.

(** C6, as the code has it.  Two shapes compare the number of values with
    the number of columns: a struct other than [time.Time] and a map with
    string keys, reached directly or below nil pointers.  For them a row
    with at least one column, whose source value exists, and whose number
    of values differs from the number of columns, ends [parseSingle] with
    the error [columns size not equal values size]; nothing is written but
    the pointers and the map made on the way. *)
Theorem parseSingle_count_mismatch (L : GoLib) (fuel : nat)
  (cols : list string) (vals : list iface) (tags : list (string * string))
  (dst : val) (columns : list string) :
  cols <> [] ->
  source cols vals tags columns <> None ->
  List.length cols <> List.length vals ->
  countsValues (fst (makePtrDstVal dst)) = true ->
  parseSingle L (S (S fuel)) cols vals tags dst columns
  = Failed (snd (makePtrDstVal dst) (made (fst (makePtrDstVal dst))))
      "columns size not equal values size".
Proof.
  intros Hc Hs Hl Hk.
  destruct dst as [| | | | | | |e [v|] | | | | |];
    try (simpl in Hk |- *; discriminate Hk);
    try (apply (parseSingle_counts L (S fuel)); assumption).
  rewrite (parseSingle_nil_pointer L (S fuel) _ _ _ _ _ Hc Hs).
  rewrite (parseSingle_counts L fuel _ _ _ _ _ Hc Hs Hl Hk).
  reflexivity.
Qed.

Lemma parseSingle_count_mismatch_witness :
  parseSingle textless 2 ["host"; "load"] [Some (VString "a")] []
    (VPtr (TStruct "Cpu" [mkField "Host" "" TString]) None) []
  = Failed
      (VPtr (TStruct "Cpu" [mkField "Host" "" TString])
         (Some (VStruct "Cpu" [mkField "Host" "" (VString "")])))
      "columns size not equal values size".
Proof.
  apply (parseSingle_count_mismatch textless 0 ["host"; "load"]
           [Some (VString "a")] []
           (VPtr (TStruct "Cpu" [mkField "Host" "" TString]) None) []).
  - discriminate.
  - simpl. discriminate.
  - simpl. lia.
  - reflexivity.
Defined.

(** C6 as the specification words it fails on the other shapes: a scalar
    takes the first value of a row that is one value short and no error
    is returned. *)
Lemma parseSingle_scalar_short_row :
  List.length ["host"; "load"] <> List.length [Some (VInt W64 5)]
  /\ parseSingle textless 1 ["host"; "load"] [Some (VInt W64 5)] []
       (VInt W8 0) []
     = Done (VInt W8 5).
Proof. split; [simpl; lia | reflexivity]. Qed.

(** *** A filter that names a tag *)

Lemma source_tag (cols : list string) (vals : list iface)
  (tags : list (string * string)) (c v : string) :
  cols <> [] -> vals <> [] -> ~ In c cols -> lookup c tags = Some v ->
  source cols vals tags [c] = Some (Some (VString v)).
Proof.
  intros Hc Hv Hin Ht. unfold source.
  destruct vals as [|v0 vs]; [congruence|].
  rewrite (columnIndex_absent c cols Hc Hin), Ht. reflexivity.
Qed.

(** Under the filter [[c]] a source of another name leaves a struct as it
    is. *)
Lemma structParse_other
  (dec : decoder)
  (c k : string) (i : iface) (name : string) (fs : list (field val)) :
  k <> c ->
  structParse dec [c] (k, i) (VStruct name fs) = Done (VStruct name fs).
Proof.
  intros Hk. unfold structParse. rewrite inColumns_single.
  apply String.eqb_neq in Hk. rewrite Hk. reflexivity.
Qed.

Lemma structParse_named
  (dec : decoder)
  (c : string) (i : iface) (name : string) (fs : list (field val)) :
  structParse dec [c] (c, i) (VStruct name fs) = boundFrom dec name fs c i.
Proof.
  unfold structParse, boundFrom. rewrite inColumns_single, String.eqb_refl.
  reflexivity.
Qed.

Lemma boundFrom_struct
  (dec : decoder)
  (name : string) (fs : list (field val)) (c : string) (i : iface)
  (d : val) :
  boundFrom dec name fs c i = Done d -> exists fs', d = VStruct name fs'.
Proof.
  unfold boundFrom. destruct (fieldFor fs c) as [n|].
  - destruct (nth_error fs n) as [f|].
    + destruct (dec [c] [i] emptyTags (fval f) []); try discriminate.
      intros [= <-]. eexists. reflexivity.
    + intros [= <-]. eexists. reflexivity.
  - intros [= <-]. eexists. reflexivity.
Qed.

Lemma each_others
  (dec : decoder)
  (c : string) (xs : list (string * iface)) (name : string)
  (fs : list (field val)) :
  ~ In c (keys xs) ->
  each (structParse dec [c]) xs (VStruct name fs) = Done (VStruct name fs).
Proof.
  intros H. apply each_idle. intros [k i] Hin.
  apply structParse_other. intros ->. apply H.
  unfold keys. apply (in_map fst) in Hin. exact Hin.
Qed.

Lemma keys_tagEntries (tags : list (string * string)) :
  keys (tagEntries tags) = keys tags.
Proof.
  unfold keys, tagEntries. rewrite map_map. reflexivity.
Qed.

Lemma keys_combine (cols : list string) (vals : list iface) (c : string) :
  In c (keys (combine cols vals)) -> In c cols.
Proof.
  unfold keys. intros H. apply in_map_iff in H as [[k i] [<- Hin]].
  apply (in_combine_l _ _ _ _ Hin).
Qed.

(** The loops of [alignToStruct] under a filter of one name that is a tag
    and not a column. *)
Lemma alignToStruct_tag
  (dec : decoder)
  (cols : list string) (vals : list iface) (tags : list (string * string))
  (c v : string) (name : string) (fs : list (field val)) :
  List.length cols = List.length vals ->
  ~ In c cols -> NoDup (keys tags) -> lookup c tags = Some v ->
  alignToStruct dec cols vals tags (VStruct name fs) [c]
  = boundFrom dec name fs c (Some (VString v)).
Proof.
  intros Hl Hin Hnd Ht. unfold alignToStruct.
  apply Nat.eqb_eq in Hl. rewrite Hl. cbn [negb].
  rewrite each_others
    by (intros H; apply Hin; apply (keys_combine _ _ _ H)).
  destruct (lookup_split c v tags Ht) as (pre & post & -> & Hpre).
  assert (Hpost : ~ In c (keys post)).
  { unfold keys in Hnd. rewrite map_app in Hnd. simpl in Hnd.
    apply NoDup_remove_2 in Hnd. intros H. apply Hnd.
    apply in_or_app. right. exact H. }
  unfold tagEntries. rewrite map_app. fold (tagEntries pre).
  rewrite each_app.
  rewrite each_others by (rewrite keys_tagEntries; exact Hpre).
  cbn [map each fst snd]. fold (tagEntries post).
  rewrite structParse_named.
  destruct (boundFrom dec name fs c (Some (VString v))) as [d| | |] eqn:E;
    try reflexivity.
  destruct (boundFrom_struct _ _ _ _ _ _ E) as [fs' ->].
  apply each_others. rewrite keys_tagEntries. exact Hpost.
Qed.

(** C8, as the code has it.  The filter [[c]] ([["region"]] in the
    specification), where [c] is a tag of the result and not one of its
    columns, on a row of at least one column and one value: a scalar
    destination receives the tag value, coerced to its kind; when the row
    has a value for each column, a struct has the field that [c] selects,
    by its tag or by its name, decoded from the tag value and, when that
    field is a scalar, set to the coerced tag value. *)
Theorem filter_resolves_tag (L : GoLib) (fuel : nat) (cols : list string)
  (vals : list iface) (tags : list (string * string)) (c v : string) :
  cols <> [] ->
  vals <> [] ->
  ~ In c cols ->
  lookup c tags = Some v ->
  (forall dst, scalar dst = true ->
     parseSingle L (S fuel) cols vals tags dst [c]
     = Done (coerced L dst (Some (VString v))))
  /\ (List.length cols = List.length vals -> NoDup (keys tags) ->
      (forall name fs,
         parseSingle L (S fuel) cols vals tags (VStruct name fs) [c]
         = boundFrom (parseSingle L fuel) name fs c (Some (VString v)))
      /\ (forall name fs n f,
            fieldFor fs c = Some n -> nth_error fs n = Some f ->
            scalar (fval f) = true ->
            parseSingle L (S (S fuel)) cols vals tags (VStruct name fs) [c]
            = Done (withField name fs n f
                      (coerced L (fval f) (Some (VString v)))))).
Proof.
  intros Hc Hv Hin Ht.
  pose proof (source_tag cols vals tags c v Hc Hv Hin Ht) as Hs.
  split.
  - intros dst Hd. destruct cols as [|col r]; [congruence|].
    cbn [parseSingle]. unfold parseStep. rewrite Hs.
    destruct dst; try discriminate Hd; reflexivity.
  - intros Hl Hnd.
    assert (Hrec : forall fuel' name fs,
               parseSingle L (S fuel') cols vals tags (VStruct name fs) [c]
               = boundFrom (parseSingle L fuel') name fs c
                   (Some (VString v))).
    { intros fuel' name fs. destruct cols as [|col r]; [congruence|].
      cbn [parseSingle]. unfold parseStep. rewrite Hs.
      apply alignToStruct_tag; assumption. }
    split.
    + apply Hrec.
    + intros name fs n f Hn Hf Hsc. rewrite Hrec.
      unfold boundFrom. rewrite Hn, Hf.
      destruct (fval f); try discriminate Hsc; reflexivity.
Qed.

Lemma filter_resolves_tag_witness :
  parseSingle textless 1 ["time"; "value"]
    [Some (VString "1"); Some (VString "12")] [("region", "eu")]
    (VString "") ["region"]
  = Done (VString "eu")
  /\ parseSingle textless 2 ["time"; "value"]
       [Some (VString "1"); Some (VString "12")] [("region", "eu")]
       (VStruct "Cpu" [mkField "Value" "" (VInt W64 0);
                       mkField "Region" "" (VString "")])
       ["region"]
     = Done (VStruct "Cpu" [mkField "Value" "" (VInt W64 0);
                            mkField "Region" "" (VString "eu")]).
Proof.
  assert (H : ["time"; "value"] <> []
              /\ [Some (VString "1"); Some (VString "12")] <> []
              /\ ~ In "region" ["time"; "value"]
              /\ lookup "region" [("region", "eu")] = Some "eu").
  { repeat split.
    - discriminate.
    - discriminate.
    - simpl. intros [H | [H | []]]; discriminate H. }
  destruct H as (H1 & H2 & H3 & H4).
  destruct (filter_resolves_tag textless 0 _ _ _ _ _ H1 H2 H3 H4)
    as (Hscalar & Hstruct).
  split.
  - exact (Hscalar (VString "") eq_refl).
  - assert (Hd : NoDup (keys [("region", "eu")]))
      by (simpl; constructor; [intros [] | constructor]).
    exact (proj2 (Hstruct eq_refl Hd) "Cpu"
             [mkField "Value" "" (VInt W64 0);
              mkField "Region" "" (VString "")]
             1%nat (mkField "Region" "" (VString ""))
             eq_refl eq_refl eq_refl).
Defined.

(** C8 as the specification words it fails on a result without columns:
    [parseSingle] returns at once when there is no column, so the tag is
    never looked up and the destination keeps its value. *)
Lemma filter_tag_without_columns :
  let serie := mkRow [] [[]] [("region", "eu")] in
  lookup "region" (Tags serie) = Some "eu"
  /\ ~ In "region" (Columns serie)
  /\ parseSingle textless 3 [] [] (Tags serie) (VString "") ["region"]
     = Done (VString "")
  /\ ParseResult textless 3 (VPtr TString (Some (VString ""))) serie
       ["region"]
     = Done (VPtr TString (Some (VString ""))).
Proof. repeat split. intros []. Qed.

(** *** One row for a destination that is not a collection *)



(** *** No row at all *)

(** C10.  When the value that [ParseResult] switches on is neither a slice
    nor an [interface{}], [ParseResult] never returns normally on a result
    without rows: once past the test on a filter of one name it panics on
    [vals[0]].  [parseSingle] panics the same way on a row without values
    under at least one column, and so does [alignToStruct] for a
    [time.Time] destination. *)
Theorem ParseResult_no_rows (L : GoLib) (fuel : nat) (t : ty)
  (target : val) (cols : list string) (tags : list (string * string))
  (columns : list string) :
  collection (fst (makePtrDstVal target)) = false ->
  ParseResult L fuel (VPtr t (Some target)) (mkRow cols [] tags) columns
  = match missing (mkRow cols [] tags) columns with
    | Some c =>
        Failed (VPtr t (Some target)) ("column not exists: `" ++ c ++ "`")
    | None => Panic
    end
  /\ (forall col more dst,
        parseSingle L (S fuel) (col :: more) [] tags dst columns = Panic)
  /\ (forall dec time,
        alignToStruct dec cols [] tags (VTime time) columns = Panic).
Proof.
  intros Hshape. repeat split.
  unfold ParseResult.
  destruct (missing (mkRow cols [] tags) columns); [reflexivity|].
  cbn [Columns Values Tags].
  destruct (makePtrDstVal target) as [dstVal k]. cbn [fst] in Hshape.
  destruct dstVal; try discriminate Hshape; reflexivity.
Qed.

Lemma ParseResult_no_rows_witness :
  ParseResult textless 1 (VPtr (TInt W64) (Some (VInt W64 0)))
    (mkRow ["value"] [] []) ["value"]
  = Panic.
Proof.
  exact (proj1 (ParseResult_no_rows textless 1 (TInt W64) (VInt W64 0)
                  ["value"] [] ["value"] eq_refl)).
Defined.

End DecodeFacts.

(** ** The encoder *)

Module EncodeFacts.
Import Int GoTime Value Coerce Strings Naming Decode Encode Shapes.

Lemma keys_store {A} (n : string) (v : A) (m : list (string * A)) :
  forall k, In k (keys (store n v m)) <-> k = n \/ In k (keys m).
Proof.
  induction m as [|[k' v'] r IH]; intros k; simpl.
  - intuition congruence.
  - destruct (String.eqb_spec n k') as [<-|Hne]; simpl.
    + intuition congruence.
    + rewrite IH. intuition congruence.
Qed.

(** The keys of the two maps after the loop are the names routed to each
    of them, added to the keys they had. *)
Lemma encodeFields_keys (L : GoLib) (fs : list (field val)) :
  forall p q, encodeFields L fs p = Some q ->
    (forall k, In k (keys (tagSet q))
               <-> In k (keys (tagSet p)) \/ In k (tagNames L fs))
    /\ (forall k, In k (keys (fieldSet q))
                  <-> In k (keys (fieldSet p)) \/ In k (fieldNames L fs)).
Proof.
  induction fs as [|f r IH]; intros p q H; simpl in H.
  - injection H as <-. simpl. intuition.
  - simpl. destruct (routeOf L f) as [|t|n v|n v|]; try discriminate H;
      destruct (IH _ _ H) as [Ht Hf]; cbn [tagSet fieldSet] in Ht, Hf;
      split; intros k; rewrite ?Ht, ?Hf, ?keys_store; simpl; intuition.
Qed.

(** C3, as the code has it.  Every field of the record takes one route:
    it is skipped, or gives the time, or is written to the tags, or to
    the fields.  The keys of the tags are the names routed to the tags and
    the keys of the fields the names routed to the fields; the two sets of
    keys are disjoint when no name is routed both ways. *)
Theorem ToPoint_disjoint_keys (L : GoLib)
  (NewPoint : string -> list (string * string) -> list (string * iface) ->
              Time -> option Point)
  (now : Time) (method : option string) (name : string)
  (fs : list (field val)) (p : Point) :
  encodeFields L fs (mkPoint (measurementOf method name) [] [] now)
  = Some p ->
  (forall k, In k (tagNames L fs) -> In k (fieldNames L fs) -> False) ->
  ToPoint L NewPoint now method (Some (VStruct name fs))
  = Returns (NewPoint (measurement p) (tagSet p) (fieldSet p) (timestamp p))
  /\ (forall k, In k (keys (tagSet p)) <-> In k (tagNames L fs))
  /\ (forall k, In k (keys (fieldSet p)) <-> In k (fieldNames L fs))
  /\ (forall k, In k (keys (tagSet p)) -> In k (keys (fieldSet p)) -> False).
Proof.
  intros Hp Hnames.
  destruct (encodeFields_keys L fs _ _ Hp) as [Ht Hf].
  assert (Ht' : forall k, In k (keys (tagSet p)) <-> In k (tagNames L fs))
    by (intros k; specialize (Ht k); unfold keys in *; simpl in Ht; tauto).
  assert (Hf' : forall k, In k (keys (fieldSet p)) <-> In k (fieldNames L fs))
    by (intros k; specialize (Hf k); unfold keys in *; simpl in Hf; tauto).
  repeat split; try apply Ht'; try apply Hf'.
  - unfold ToPoint. cbn [Indirect]. rewrite Hp. reflexivity.
  - intros k H1 H2. apply (Hnames k); [apply Ht' | apply Hf']; assumption.
Qed.

Lemma ToPoint_disjoint_keys_witness :
  ToPoint textless libraryNewPoint (mkTime 1700000000 0) None
    (Some (VStruct "CpuLoad"
             [mkField "Host" "host,tag" (VString "a");
              mkField "Value" "" (VInt W64 1)]))
  = Returns
      (Some (mkPoint "cpu_load" [("host", "a")]
               [("value", Some (VInt W64 1))] (mkTime 1700000000 0))).
Proof.
  refine (proj1 (ToPoint_disjoint_keys textless libraryNewPoint
                   (mkTime 1700000000 0) None "CpuLoad"
                   [mkField "Host" "host,tag" (VString "a");
                    mkField "Value" "" (VInt W64 1)]
                   (mkPoint "cpu_load" [("host", "a")]
                      [("value", Some (VInt W64 1))] (mkTime 1700000000 0))
                   eq_refl _)).
  simpl. intros k [<- | []] [H | []]. discriminate H.
Defined.

(** C3 as the specification words it fails: a field tagged [name,tag] and
    a field tagged [name] put the key [name] in both maps. *)
Lemma ToPoint_shared_name :
  exists p,
    ToPoint textless libraryNewPoint (mkTime 1700000000 0) None
      (Some (VStruct "Cpu"
               [mkField "Host" "name,tag" (VString "a");
                mkField "Load" "name" (VInt W64 1)]))
    = Returns (Some p)
    /\ In "name" (keys (tagSet p)) /\ In "name" (keys (fieldSet p)).
Proof.
  eexists. split; [reflexivity|]. simpl. split; left; reflexivity.
Qed.

(** *** A record of tags only *)






End EncodeFacts.

(** ** Naming, further *)

Module NamingLaws.
Import Unicode Strings Naming Laws.

Ltac all_bytes c :=
  destruct c as [[] [] [] [] [] [] [] []]; vm_compute;
  repeat split; congruence.





Lemma ToTitle_not_underscore (c : ascii) :
  not_underscore c = true -> not_underscore (ToTitle c) = true.
Proof. all_bytes c. Qed.

Lemma all_bytes_append (p : ascii -> bool) (a b : string) :
  all_bytes p (a ++ b) = all_bytes p a && all_bytes p b.
Proof.
  induction a as [|c r IH]; simpl; [reflexivity|].
  rewrite IH. apply andb_assoc.
Qed.

Lemma title_from_not_underscore (s : string) :
  forall prev, all_bytes not_underscore s = true ->
               all_bytes not_underscore (title_from prev s) = true.
Proof.
  induction s as [|c r IH]; intros prev H; simpl in *; [reflexivity|].
  apply andb_prop in H as [Hc Hr]. rewrite (IH c Hr), andb_true_r.
  destruct (isSeparator prev); [apply ToTitle_not_underscore|]; exact Hc.
Qed.

Lemma Split_not_underscore (s : string) :
  forallb (all_bytes not_underscore) (Split "_" s) = true.
Proof.
  induction s as [|c r IH]; [reflexivity|].
  simpl Split. destruct (Ascii.eqb c "_") eqn:E.
  - simpl. exact IH.
  - destruct (Split "_" r) as [|seg segs]; simpl in *.
    + unfold not_underscore. rewrite E. reflexivity.
    + unfold not_underscore at 1. rewrite E. exact IH.
Qed.

Lemma concat_not_underscore (segs : list string) :
  forallb (all_bytes not_underscore) segs = true ->
  all_bytes not_underscore (String.concat "" (map Title segs)) = true.
Proof.
  induction segs as [|seg rest IH]; intros H; [reflexivity|].
  simpl in H. apply andb_prop in H as [Hs Hr].
  destruct rest as [|seg' rest'].
  - simpl. apply title_from_not_underscore, Hs.
  - change (String.concat "" (map Title (seg :: seg' :: rest')))
      with (Title seg ++ String.concat "" (map Title (seg' :: rest'))).
    rewrite all_bytes_append, (IH Hr), andb_true_r.
    apply title_from_not_underscore, Hs.
Qed.

(** X2.  The result of [snakeToTitle] holds no underscore: every separator
    of the column name is dropped, also a leading, a trailing or a doubled
    one. *)
Theorem snakeToTitle_no_underscore (s : string) :
  all_bytes not_underscore (snakeToTitle s) = true.
Proof.
  unfold snakeToTitle, Join. apply concat_not_underscore, Split_not_underscore.
Qed.

Lemma snakeToTitle_underscore (r : string) :
  snakeToTitle (String "_" r) = snakeToTitle r.
Proof.
  unfold snakeToTitle, Join. simpl Split.
  pose proof (NamingFacts.Split_nonempty "_" r) as Hne.
  destruct (Split "_" r) as [|seg segs]; [congruence | reflexivity].
Qed.

Lemma snakeToTitle_byte (c : ascii) (r : string) :
  not_underscore c = true ->
  snakeToTitle (String c r) = String (ToTitle c) (title_rest c r).
Proof.
  unfold not_underscore. intros Hc. apply negb_true_iff in Hc.
  unfold snakeToTitle, Join, title_rest. simpl Split. rewrite Hc.
  pose proof (NamingFacts.Split_nonempty "_" r) as Hne.
  destruct (Split "_" r) as [|seg segs]; [congruence|].
  destruct segs; simpl; [rewrite NamingFacts.append_empty|]; reflexivity.
Qed.

Lemma title_rest_underscore (prev : ascii) (r : string) :
  title_rest prev (String "_" r) = snakeToTitle r.
Proof. reflexivity. Qed.

Lemma title_rest_byte (prev c : ascii) (r : string) :
  not_underscore c = true ->
  title_rest prev (String c r)
  = String (if isSeparator prev then ToTitle c else c) (title_rest c r).
Proof.
  unfold not_underscore. intros Hc. apply negb_true_iff in Hc.
  unfold title_rest. simpl Split. rewrite Hc.
  pose proof (NamingFacts.Split_nonempty "_" r) as Hne.
  destruct (Split "_" r) as [|seg segs]; [congruence | reflexivity].
Qed.

Lemma upper_letter_back (c : ascii) :
  is_upper_letter c = true ->
  ToTitle (ToLower c) = c /\ isSeparator (ToLower c) = false
  /\ not_underscore (ToLower c) = true.
Proof. all_bytes c. Qed.

Lemma piece_byte_inside (c : ascii) :
  piece_byte c = true ->
  isSeparator c = false /\ not_underscore c = true.
Proof. all_bytes c. Qed.

(** Inside a name in title case: the bytes written by [titleToSnake] are
    read back by [snakeToTitle]. *)
Lemma title_rest_snake_from (r : string) :
  forall prev b,
    isSeparator prev = false -> title_tail b r = true ->
    title_rest prev (snake_from b r) = r.
Proof.
  induction r as [|c r IH]; intros prev b Hprev H; [reflexivity|].
  simpl in H. unfold snake_from; fold snake_from. unfold IsUpper.
  destruct (is_upper_letter c) eqn:Hc.
  - apply andb_prop in H as [Hb Hr]. apply negb_true_iff in Hb. subst b.
    destruct (upper_letter_back c Hc) as (Hback & Hsep & Hnot).
    rewrite title_rest_underscore, (snakeToTitle_byte _ _ Hnot), Hback.
    rewrite (IH _ true Hsep Hr). reflexivity.
  - apply andb_prop in H as [Hp Hr].
    destruct (piece_byte_inside c Hp) as [Hsep Hnot].
    rewrite (title_rest_byte _ _ _ Hnot), Hprev, (IH _ false Hsep Hr).
    reflexivity.
Qed.

Lemma snakeToTitle_titleToSnake (s : string) :
  title_name s = true -> snakeToTitle (titleToSnake s) = s.
Proof.
  destruct s as [|c r]; [discriminate|]. simpl. intros H.
  apply andb_prop in H as [Hc Hr].
  destruct (upper_letter_back c Hc) as (Hback & Hsep & Hnot).
  unfold titleToSnake. simpl. unfold IsUpper. rewrite Hc.
  rewrite (snakeToTitle_byte _ _ Hnot), Hback.
  rewrite (title_rest_snake_from r _ true Hsep Hr). reflexivity.
Qed.

(** X3.  A name in title case (words that start with an upper-case letter
    and go on with lower-case letters and digits, no two upper-case letters
    in a row) is given back by [snakeToTitle] after [titleToSnake]: the
    column that the encoder derives from a field name leads the decoder
    back to that field name. *)
Theorem title_snake_round_trip (s : string) :
  title_name s = true -> snakeToTitle (titleToSnake s) = s.
Proof. apply snakeToTitle_titleToSnake. Qed.

Lemma title_snake_round_trip_witness :
  snakeToTitle (titleToSnake "MeasurementName2X") = "MeasurementName2X".
Proof. apply title_snake_round_trip. reflexivity. Defined.

End NamingLaws.

(** ** The coercion layer, further *)

Module CoerceLaws.
Import Unicode Int Strconv GoTime Value Coerce Shapes Laws.

Lemma digit_byte (d : Z) :
  0 <= d < 10 ->
  is_digit (ascii_of_N (Z.to_N (48 + d))) = true
  /\ code (ascii_of_N (Z.to_N (48 + d))) - 48 = d.
Proof.
  intros H.
  assert (E : d = 0 \/ d = 1 \/ d = 2 \/ d = 3 \/ d = 4 \/ d = 5 \/ d = 6
              \/ d = 7 \/ d = 8 \/ d = 9) by lia.
  repeat destruct E as [E | E]; subst d; split; reflexivity.
Qed.

Lemma is_digit_range (c : ascii) :
  is_digit c = true -> 0 <= code c - 48 < 10.
Proof.
  unfold is_digit, between. intros H. apply andb_prop in H as [H1 H2].
  apply Z.leb_le in H1, H2. lia.
Qed.

(** One turn of the loop of [ParseUint] on a digit that does not
    overflow. *)
Lemma uint_loop_digit (n : Z) (c : ascii) (r : string) :
  is_digit c = true -> 0 <= n -> n * 10 + (code c - 48) <= maxUint64 ->
  uint_loop n (String c r) = uint_loop (n * 10 + (code c - 48)) r.
Proof.
  intros Hc Hn Hmax. pose proof (is_digit_range c Hc) as Hd.
  pose proof (eq_refl : maxUint64 = 18446744073709551615) as Hval.
  cbn [uint_loop]. rewrite Hc.
  assert (Hcut : (n >=? maxUint64 / 10 + 1) = false).
  { rewrite Z.geb_leb. apply Z.leb_gt.
    assert (n <= maxUint64 / 10) by (apply Z.div_le_lower_bound; lia). lia. }
  rewrite Hcut.
  assert (Hov : (n * 10 + (code c - 48) >? maxUint64) = false)
    by (rewrite Z.gtb_ltb; apply Z.ltb_ge; exact Hmax).
  rewrite Hov. reflexivity.
Qed.

(** The digits written by [FormatUint] are read back by the loop of
    [ParseUint]. *)
Lemma uint_loop_digits_from (fuel : nat) :
  forall n acc,
    0 <= n <= maxUint64 -> n < 2 ^ Z.of_nat fuel ->
    uint_loop 0 (digits_from fuel n acc) = uint_loop n acc.
Proof.
  pose proof (eq_refl : maxUint64 = 18446744073709551615) as Hmax.
  induction fuel as [|fuel IH]; intros n acc Hn Hfuel.
  - simpl in Hfuel. assert (n = 0) by lia. subst n. reflexivity.
  - cbn [digits_from].
    assert (Hd : 0 <= n mod 10 < 10) by (apply Z.mod_pos_bound; lia).
    destruct (digit_byte (n mod 10) Hd) as [Hdig Hcode].
    destruct (Z.ltb_spec n 10) as [Hsmall | Hbig].
    + rewrite (uint_loop_digit 0 _ acc Hdig); [|lia|rewrite Hcode; lia].
      rewrite Hcode, Z.mod_small by lia. reflexivity.
    + assert (Hdiv : n = 10 * (n / 10) + n mod 10) by (apply Z.div_mod; lia).
      assert (Hq : 0 <= n / 10) by (apply Z.div_pos; lia).
      rewrite IH.
      * rewrite (uint_loop_digit (n / 10) _ acc Hdig);
          [|lia|rewrite Hcode; lia].
        rewrite Hcode. f_equal. lia.
      * lia.
      * rewrite Nat2Z.inj_succ, Z.pow_succ_r in Hfuel by lia. lia.
Qed.

Lemma FormatUint_read (n : Z) :
  0 <= n <= maxUint64 -> uint_loop 0 (FormatUint n) = (n, None).
Proof.
  intros Hn. unfold FormatUint. rewrite uint_loop_digits_from.
  - reflexivity.
  - exact Hn.
  - rewrite Nat2Z.inj_succ, Z2Nat.id by apply Z.log2_nonneg.
    destruct (Z.eq_dec n 0) as [-> | Hpos]; [reflexivity|].
    apply Z.log2_spec. lia.
Qed.

(** What [FormatUint] writes starts with a digit. *)
Lemma digits_from_head (fuel : nat) :
  forall n acc c0,
    is_digit c0 = true -> 0 <= n ->
    exists c r, digits_from fuel n (String c0 acc) = String c r
                /\ is_digit c = true.
Proof.
  induction fuel as [|fuel IH]; intros n acc c0 Hc Hn.
  - exists c0, acc. split; [reflexivity | exact Hc].
  - cbn [digits_from].
    assert (Hd : 0 <= n mod 10 < 10) by (apply Z.mod_pos_bound; lia).
    destruct (digit_byte (n mod 10) Hd) as [Hdig _].
    destruct (n <? 10).
    + eexists _, _. split; [reflexivity | exact Hdig].
    + apply IH; [exact Hdig | apply Z.div_pos; lia].
Qed.

Lemma FormatUint_head (n : Z) :
  0 <= n -> exists c r, FormatUint n = String c r /\ is_digit c = true.
Proof.
  intros Hn. unfold FormatUint. cbn [digits_from].
  assert (Hd : 0 <= n mod 10 < 10) by (apply Z.mod_pos_bound; lia).
  destruct (digit_byte (n mod 10) Hd) as [Hdig _].
  destruct (n <? 10).
  - eexists _, _. split; [reflexivity | exact Hdig].
  - apply digits_from_head; [exact Hdig | apply Z.div_pos; lia].
Qed.

Lemma digit_not_sign (c : ascii) :
  is_digit c = true -> Ascii.eqb c "+" = false /\ Ascii.eqb c "-" = false.
Proof.
  destruct c as [[] [] [] [] [] [] [] []]; vm_compute;
    repeat split; congruence.
Qed.

Lemma ParseUint_nonempty (s : string) (c : ascii) (r : string) :
  s = String c r -> ParseUint s = uint_loop 0 s.
Proof. intros ->. reflexivity. Qed.

Lemma ParseInt_FormatInt (z : Z) :
  minInt64 <= z <= maxInt64 -> ParseInt (FormatInt z) = (z, None).
Proof.
  intros Hz. unfold minInt64, maxInt64 in Hz. unfold FormatInt.
  destruct (Z.ltb_spec z 0) as [Hneg | Hpos].
  - assert (Hn : 0 <= - z <= maxUint64) by (unfold maxUint64; lia).
    destruct (FormatUint_head (- z)) as (c & r & E & Hc); [lia|].
    unfold ParseInt.
    change (Ascii.eqb "-" "-") with true.
    change (Ascii.eqb "-" "+") with false. cbn [orb andb negb].
    rewrite (ParseUint_nonempty _ c r E), (FormatUint_read _ Hn).
    assert (Hcut : (- z >? 2 ^ 63) = false)
      by (rewrite Z.gtb_ltb; apply Z.ltb_ge; lia).
    rewrite Hcut. f_equal. lia.
  - assert (Hn : 0 <= z <= maxUint64) by (unfold maxUint64; lia).
    destruct (FormatUint_head z Hpos) as (c & r & E & Hc).
    destruct (digit_not_sign c Hc) as [Hplus Hminus].
    unfold ParseInt. rewrite E, Hplus, Hminus. cbn [orb andb negb].
    rewrite <- E, (ParseUint_nonempty _ c r E), (FormatUint_read _ Hn).
    assert (Hcut : (z >=? 2 ^ 63) = false)
      by (rewrite Z.geb_leb; apply Z.leb_gt; lia).
    rewrite Hcut. reflexivity.
Qed.

(** X4.  An [int64] written as text by [parseString] is read back by
    [parseInt]: a number that the encoder stores as a tag comes back as the
    same number. *)
Theorem parseInt_parseString (L : GoLib) (w : width) (z : Z) :
  minInt64 <= z <= maxInt64 ->
  parseInt (Some (VString (parseString L (Some (VInt w z))))) = z.
Proof.
  intros Hz. cbn [parseString parseInt].
  rewrite (ParseInt_FormatInt z Hz). reflexivity.
Qed.

Lemma parseInt_parseString_witness :
  parseInt (Some (VString (parseString textless (Some (VInt W64 (-1205))))))
  = -1205.
Proof.
  apply parseInt_parseString. unfold minInt64, maxInt64. lia.
Defined.

Lemma int64_small (z : Z) : minInt64 <= z <= maxInt64 -> int64 z = z.
Proof.
  unfold minInt64, maxInt64, int64, swrap, bits. intros H.
  rewrite Z.mod_small; lia.
Qed.

(** X5.  A number of nanoseconds since the epoch, of either sign, is turned
    by [parseTime] into the instant that lies that many nanoseconds from
    the epoch, its nanosecond part within a second. *)
Theorem parseTime_nanoseconds (w : width) (n : Z) :
  minInt64 <= n <= maxInt64 ->
  UnixNano (parseTime (Some (VInt w n))) = n
  /\ 0 <= nanos (parseTime (Some (VInt w n))) < 1000000000.
Proof.
  intros Hn. cbn [parseTime].
  pose proof (Z.quot_rem' n 1000000000) as Hqr.
  assert (Hrem : -1000000000 < Z.rem n 1000000000 < 1000000000).
  { pose proof (Z.rem_bound_abs n 1000000000 ltac:(lia)). lia. }
  unfold Unix.
  destruct (Z.ltb_spec (Z.rem n 1000000000) 0) as [Hlt | Hge].
  - cbn [orb].
    assert (Hq : Z.quot (Z.rem n 1000000000) 1000000000 = 0)
      by (apply Z.quot_small_iff; lia).
    rewrite Hq.
    assert (Hneg : (Z.rem n 1000000000 - 0 * 1000000000 <? 0) = true)
      by (apply Z.ltb_lt; lia).
    rewrite Hneg. unfold UnixNano. cbn [unixSec nanos].
    split; [|lia]. rewrite int64_small; unfold minInt64, maxInt64 in *; lia.
  - cbn [orb].
    assert (Hbig : (Z.rem n 1000000000 >=? 1000000000) = false)
      by (rewrite Z.geb_leb; apply Z.leb_gt; lia).
    rewrite Hbig. unfold UnixNano. cbn [unixSec nanos].
    split; [|lia]. rewrite int64_small; unfold minInt64, maxInt64 in *; lia.
Qed.

Lemma parseTime_nanoseconds_witness :
  UnixNano (parseTime (Some (VInt W64 (-1)))) = -1
  /\ 0 <= nanos (parseTime (Some (VInt W64 (-1)))) < 1000000000.
Proof.
  apply parseTime_nanoseconds. unfold minInt64, maxInt64. lia.
Defined.

(** A text in the RFC 3339 layout starts with four digits and a hyphen. *)
Lemma ParseRFC3339_head (s : string) (t : Time) :
  ParseRFC3339 s = Some t ->
  exists c1 c2 c3 c4 r,
    s = String c1 (String c2 (String c3 (String c4 (String "-" r))))
    /\ is_digit c1 = true /\ is_digit c2 = true
    /\ is_digit c3 = true /\ is_digit c4 = true.
Proof.
  unfold ParseRFC3339, num4, num2. intros H.
  destruct s as [|c1 [|c2 [|c3 [|c4 [|c5 r]]]]];
    cbn [bind digit lit] in H;
    repeat match type of H with
      | context [is_digit ?c] =>
          destruct (is_digit c) eqn:?; cbn [bind digit lit] in H
      end;
    try discriminate H.
  destruct (Ascii.eqb_spec "-" c5) as [<- | Hne]; [|discriminate H].
  exists c1, c2, c3, c4, r. repeat split; assumption.
Qed.

Lemma ParseInt_of_date (c1 c2 c3 c4 : ascii) (r : string) :
  is_digit c1 = true -> is_digit c2 = true ->
  is_digit c3 = true -> is_digit c4 = true ->
  ParseInt (String c1 (String c2 (String c3 (String c4 (String "-" r)))))
  = (0, Some ErrSyntax).
Proof.
  intros H1 H2 H3 H4.
  pose proof (is_digit_range _ H1). pose proof (is_digit_range _ H2).
  pose proof (is_digit_range _ H3). pose proof (is_digit_range _ H4).
  pose proof (eq_refl : maxUint64 = 18446744073709551615) as Hval.
  destruct (digit_not_sign c1 H1) as [Hplus Hminus].
  unfold ParseInt. rewrite Hplus, Hminus. cbn [orb andb negb].
  unfold ParseUint.
  rewrite (uint_loop_digit 0 c1) by (assumption || lia).
  rewrite (uint_loop_digit _ c2) by (assumption || lia).
  rewrite (uint_loop_digit _ c3) by (assumption || lia).
  rewrite (uint_loop_digit _ c4) by (assumption || lia).
  reflexivity.
Qed.

(** X6.  A text that [time.Parse] takes as an RFC 3339 instant is never a
    number for [parseInt]: it gives the Unix time of the instant in
    nanoseconds, and [parseTime] gives the same instant. *)
Theorem parseInt_of_instant (s : string) (t : Time) :
  ParseRFC3339 s = Some t ->
  parseInt (Some (VString s)) = UnixNano t
  /\ parseTime (Some (VString s)) = t.
Proof.
  intros H.
  destruct (ParseRFC3339_head s t H)
    as (c1 & c2 & c3 & c4 & r & -> & H1 & H2 & H3 & H4).
  split.
  - cbn [parseInt]. rewrite (ParseInt_of_date c1 c2 c3 c4 r H1 H2 H3 H4), H.
    reflexivity.
  - cbn [parseTime]. rewrite H. reflexivity.
Qed.

Lemma parseInt_of_instant_witness :
  parseInt (Some (VString "2021-07-01T00:00:00.5+02:00"))
  = UnixNano (mkTime 1625090400 500000000)
  /\ parseTime (Some (VString "2021-07-01T00:00:00.5+02:00"))
     = mkTime 1625090400 500000000.
Proof. apply parseInt_of_instant. reflexivity. Defined.

End CoerceLaws.

(** ** The decoder, further *)

Module DecodeLaws.
Import Int GoTime Value Coerce Strings Naming Decode Shapes Laws.

(** *** Columns *)

Lemma indexFrom_found (c : string) (cols : list string) :
  forall i, In c cols ->
    exists k, indexFrom i c cols = i + Z.of_nat k
              /\ nth_error cols k = Some c
              /\ (forall j, (j < k)%nat -> nth_error cols j <> Some c).
Proof.
  induction cols as [|col r IH]; intros i Hin; [destruct Hin|].
  simpl. destruct (String.eqb_spec c col) as [-> | Hne].
  - exists O. repeat split; [lia | intros j Hj; lia].
  - destruct Hin as [-> | Hin]; [congruence|].
    destruct (IH (i + 1) Hin) as (k & Hk & Hnth & Hfirst).
    exists (S k). repeat split.
    + rewrite Hk. lia.
    + exact Hnth.
    + intros [|j] Hj; simpl; [congruence | apply Hfirst; lia].
Qed.

Lemma columnIndex_found (c : string) (cols : list string) :
  cols <> [] -> In c cols ->
  exists k, columnIndex c cols = Z.of_nat k
            /\ index cols (columnIndex c cols) = Some c
            /\ (forall j, (j < k)%nat -> nth_error cols j <> Some c).
Proof.
  intros Hne Hin. destruct cols as [|col r]; [congruence|].
  unfold columnIndex.
  destruct (indexFrom_found c (col :: r) 0 Hin) as (k & Hk & Hnth & Hfirst).
  exists k. rewrite Hk. repeat split; [| exact Hfirst].
  unfold index. simpl Z.add.
  destruct (Z.ltb_spec (Z.of_nat k) 0); [lia|].
  rewrite Nat2Z.id. exact Hnth.
Qed.

(** X7.  [inColumns] and [columnIndex] agree: a name is in the columns
    exactly when its index is not negative (both take an empty list for
    "all": the index is then 0).  In a list that is not empty the index of
    a name that occurs is the place of its first occurrence, and the index
    of a name that does not occur is -1. *)
Theorem columnIndex_inColumns (c : string) (cols : list string) :
  inColumns c cols = (0 <=? columnIndex c cols)
  /\ (cols <> [] ->
      (In c cols ->
       exists k, columnIndex c cols = Z.of_nat k
                 /\ index cols (columnIndex c cols) = Some c
                 /\ (forall j, (j < k)%nat -> nth_error cols j <> Some c))
      /\ (~ In c cols -> columnIndex c cols = -1)).
Proof.
  pose proof (columnIndex_found c cols) as Hpos.
  split; [|intros Hne; split;
            [apply Hpos, Hne | apply DecodeFacts.columnIndex_absent, Hne]].
  destruct cols as [|col r]; [reflexivity|].
  assert (Hne : col :: r <> []) by discriminate.
  destruct (in_dec string_dec c (col :: r)) as [Hin | Hout].
  - destruct (Hpos Hne Hin) as (k & Hk & _). rewrite Hk.
    assert (E : (0 <=? Z.of_nat k) = true) by (apply Z.leb_le; lia).
    rewrite E. unfold inColumns. apply existsb_exists.
    exists c. split; [exact Hin | apply String.eqb_refl].
  - rewrite (DecodeFacts.columnIndex_absent c _ Hne Hout).
    apply DecodeFacts.inColumns_absent; [exact Hne | exact Hout].
Qed.

Lemma columnIndex_inColumns_witness :
  inColumns "host" ["time"; "host"; "host"]
  = (0 <=? columnIndex "host" ["time"; "host"; "host"])
  /\ exists k,
       columnIndex "host" ["time"; "host"; "host"] = Z.of_nat k
       /\ index ["time"; "host"; "host"]
            (columnIndex "host" ["time"; "host"; "host"])
          = Some "host"
       /\ (forall j, (j < k)%nat ->
             nth_error ["time"; "host"; "host"] j <> Some "host").
Proof.
  destruct (columnIndex_inColumns "host" ["time"; "host"; "host"])
    as [Hin Hidx].
  split; [exact Hin|].
  apply Hidx; [discriminate | simpl; auto].
Defined.

(** *** Scalars and pointers *)







End DecodeLaws.

(** ** The loops of the decoder *)

Module LoopLaws.
Import Int GoTime Value Coerce Strings Naming Decode Shapes Laws.








(** *** The rows of a result into a slice *)





End LoopLaws.

(** ** Maps, holders and filtered slices *)

Module MapLaws.
Import Int GoTime Value Coerce Strings Naming Decode Shapes Laws.








(** *** A row into a map of scalars *)





(** *** A filter on a slice *)







End MapLaws.

(** ** The encoder, further *)

Module EncodeLaws.
Import Int GoTime Value Coerce Strings Naming Decode Encode Shapes Laws.

Lemma encodeFields_app (L : GoLib) (pre post : list (field val)) :
  forall p,
    encodeFields L (pre ++ post) p
    = match encodeFields L pre p with
      | Some q => encodeFields L post q
      | None => None
      end.
Proof.
  induction pre as [|f pre IH]; intros p; simpl; [reflexivity|].
  destruct (routeOf L f); try apply IH. reflexivity.
Qed.

(** X15.  A field tagged ["-"] is no part of the point: [ToPoint] returns
    for the record what it returns for the record without that field,
    whatever the field holds and whether it is exported or not. *)
Theorem ToPoint_skips_ignored (L : GoLib)
  (NewPoint : string -> list (string * string) -> list (string * iface) ->
              Time -> option Point)
  (now : Time) (method : option string) (name : string)
  (pre post : list (field val)) (f : field val) :
  ftag f = "-" ->
  ToPoint L NewPoint now method (Some (VStruct name (pre ++ f :: post)))
  = ToPoint L NewPoint now method (Some (VStruct name (pre ++ post))).
Proof.
  intros Hf. unfold ToPoint. cbn [Indirect].
  rewrite !encodeFields_app.
  destruct (encodeFields L pre _) as [q|]; [|reflexivity].
  cbn [encodeFields]. unfold routeOf at 1. rewrite Hf. reflexivity.
Qed.

Lemma ToPoint_skips_ignored_witness :
  ToPoint textless libraryNewPoint (mkTime 1700000000 0) None
    (Some (VStruct "Cpu"
             ([mkField "Load" "" (VInt W64 1)]
              ++ mkField "note" "-" VOther
                 :: [mkField "Host" "host,tag" (VString "a")])))
  = ToPoint textless libraryNewPoint (mkTime 1700000000 0) None
      (Some (VStruct "Cpu"
               ([mkField "Load" "" (VInt W64 1)]
                ++ [mkField "Host" "host,tag" (VString "a")]))).
Proof. apply ToPoint_skips_ignored. reflexivity. Defined.

Lemma routeOf_unexported (L : GoLib) (f : field val) :
  ftag f <> "-" -> exported (fname f) = false -> routeOf L f = Panics.
Proof.
  intros Htag Hexp. unfold routeOf. apply String.eqb_neq in Htag.
  rewrite Htag, Hexp.
  destruct (String.eqb (fname f) "Time" || String.eqb (ftag f) "time");
    reflexivity.
Qed.

Lemma encodeFields_panics (L : GoLib) (fs : list (field val))
  (f : field val) :
  In f fs -> routeOf L f = Panics -> forall p, encodeFields L fs p = None.
Proof.
  induction fs as [|g fs IH]; intros Hin Hf p; [destruct Hin|].
  cbn [encodeFields]. destruct Hin as [-> | Hin].
  - rewrite Hf. reflexivity.
  - destruct (routeOf L g); try apply (IH Hin Hf). reflexivity.
Qed.

(** X16.  A record with a field that is not exported and not tagged ["-"]
    makes [ToPoint] panic: [Interface] cannot be called on such a field. *)
Theorem ToPoint_unexported_panics (L : GoLib)
  (NewPoint : string -> list (string * string) -> list (string * iface) ->
              Time -> option Point)
  (now : Time) (method : option string) (name : string)
  (fs : list (field val)) (f : field val) :
  In f fs -> ftag f <> "-" -> exported (fname f) = false ->
  ToPoint L NewPoint now method (Some (VStruct name fs)) = EncodePanic.
Proof.
  intros Hin Htag Hexp. unfold ToPoint. cbn [Indirect].
  rewrite (encodeFields_panics L fs f Hin (routeOf_unexported L f Htag Hexp)).
  reflexivity.
Qed.

Lemma ToPoint_unexported_panics_witness :
  ToPoint textless libraryNewPoint (mkTime 1700000000 0) None
    (Some (VStruct "Cpu"
             [mkField "Load" "" (VInt W64 1);
              mkField "host" "host,tag" (VString "a")]))
  = EncodePanic.
Proof.
  apply (ToPoint_unexported_panics textless libraryNewPoint
           (mkTime 1700000000 0) None "Cpu" _
           (mkField "host" "host,tag" (VString "a"))).
  - right. left. reflexivity.
  - discriminate.
  - reflexivity.
Defined.

Lemma encodeFields_time (L : GoLib) (fs : list (field val)) :
  forall p q, encodeFields L fs p = Some q ->
    measurement q = measurement p
    /\ timestamp q = match lastTime L fs with
                     | Some t => t
                     | None => timestamp p
                     end.
Proof.
  induction fs as [|f fs IH]; intros p q H; cbn [encodeFields lastTime] in *.
  - injection H as <-. split; reflexivity.
  - destruct (routeOf L f); try discriminate H;
      destruct (IH _ _ H) as [Hm Ht]; cbn [measurement timestamp] in Hm, Ht;
      (split; [exact Hm|]); rewrite Ht; destruct (lastTime L fs); reflexivity.
Qed.

(** X17.  The point is built with the measurement chosen at the start and
    with the time of the last field named [Time] or tagged [time]; without
    such a field its time is the time read at the call. *)
Theorem ToPoint_time (L : GoLib)
  (NewPoint : string -> list (string * string) -> list (string * iface) ->
              Time -> option Point)
  (now : Time) (method : option string) (name : string)
  (fs : list (field val)) (q : Point) :
  encodeFields L fs (mkPoint (measurementOf method name) [] [] now) = Some q ->
  ToPoint L NewPoint now method (Some (VStruct name fs))
  = Returns
      (NewPoint (measurementOf method name) (tagSet q) (fieldSet q)
         (match lastTime L fs with Some t => t | None => now end)).
Proof.
  intros H. unfold ToPoint. cbn [Indirect]. rewrite H.
  destruct (encodeFields_time L fs _ _ H) as [Hm Ht].
  cbn [measurement timestamp] in Hm, Ht. rewrite Hm, Ht. reflexivity.
Qed.

Lemma ToPoint_time_witness :
  ToPoint textless libraryNewPoint (mkTime 1700000000 0) None
    (Some (VStruct "Cpu"
             [mkField "Time" "" (VTime (mkTime 5 0));
              mkField "Load" "" (VInt W64 1)]))
  = Returns
      (libraryNewPoint (measurementOf None "Cpu") []
         [("load", Some (VInt W64 1))] (mkTime 5 0)).
Proof.
  exact (ToPoint_time textless libraryNewPoint (mkTime 1700000000 0) None
           "Cpu"
           [mkField "Time" "" (VTime (mkTime 5 0));
            mkField "Load" "" (VInt W64 1)]
           (mkPoint "cpu" [] [("load", Some (VInt W64 1))] (mkTime 5 0))
           eq_refl).
Defined.

End EncodeLaws.

(** ** From a record to a point and back *)

Module RoundTrip.
Import Unicode Int GoTime Value Coerce Strings Naming Decode Encode Shapes Laws.

(** *** Finding a field *)

Lemma findIndex_first {A} (p : A -> bool) (l : list A) :
  forall n x,
    nth_error l n = Some x -> p x = true ->
    (forall j y, nth_error l j = Some y -> p y = true -> j = n) ->
    findIndex p l = Some n.
Proof.
  induction l as [|a l IH]; intros n x Hn Hx Hu; [destruct n; discriminate|].
  cbn [findIndex]. destruct (p a) eqn:Ha.
  - f_equal. apply (Hu O a eq_refl Ha).
  - destruct n as [|n]; [simpl in Hn; congruence|].
    rewrite (IH n x Hn Hx); [reflexivity|].
    intros j y Hj Hy. specialize (Hu (S j) y Hj Hy). lia.
Qed.

Lemma findIndex_none {A} (p : A -> bool) (l : list A) :
  (forall y, In y l -> p y = false) -> findIndex p l = None.
Proof.
  induction l as [|a l IH]; intros H; [reflexivity|].
  cbn [findIndex]. rewrite (H a (or_introl eq_refl)), IH; [reflexivity|].
  intros y Hy. apply H. right. exact Hy.
Qed.

(** Two fields of a list with distinct images under [h] are the same
    field. *)
Lemma same_place {A B} (h : A -> B) (l : list A) (i j : nat) (x y : A) :
  NoDup (map h l) ->
  nth_error l i = Some x -> nth_error l j = Some y -> h x = h y -> i = j.
Proof.
  intros Hnd Hi Hj Hxy.
  apply (proj1 (NoDup_nth_error (map h l)) Hnd).
  - rewrite length_map. apply nth_error_Some. congruence.
  - rewrite !nth_error_map, Hi, Hj. simpl. congruence.
Qed.

Lemma titleToSnake_nonempty (s : string) :
  s <> "" -> titleToSnake s <> "".
Proof.
  destruct s as [|c r]; [congruence|]. intros _. unfold titleToSnake. simpl.
  destruct (IsUpper c); discriminate.
Qed.

Lemma title_name_nonempty (s : string) : title_name s = true -> s <> "".
Proof. destruct s; [discriminate | discriminate]. Qed.

Lemma portable_parts (f : field val) :
  portable f = true ->
  exported (fname f) = true
  /\ String.eqb (ftag f) "-" = false
  /\ (String.eqb (fname f) "Time" || String.eqb (ftag f) "time") = false
  /\ (tagName (ftag f) <> "" \/ (tagName (ftag f) = "" /\ title_name (fname f) = true))
  /\ (if HasSuffix (ftag f) ",tag" then tagFits (fval f) else fits (fval f))
     = true.
Proof.
  unfold portable. intros H.
  apply andb_prop in H as [H H5]. apply andb_prop in H as [H H4].
  apply andb_prop in H as [H H3]. apply andb_prop in H as [H1 H2].
  apply negb_true_iff in H2, H3.
  repeat split; try assumption.
  destruct (String.eqb (tagName (ftag f)) "") eqn:E.
  - right. apply String.eqb_eq in E. split; assumption.
  - left. apply String.eqb_neq. exact E.
Qed.

Lemma fieldFor_pointName (fs : list (field val)) (n : nat)
  (f : field val) :
  NoDup (map fname fs) ->
  NoDup (map pointName fs) ->
  nth_error fs n = Some f ->
  portable f = true ->
  fieldFor fs (pointName f) = Some n.
Proof.
  intros Hnames Hpoints Hn Hp.
  destruct (portable_parts f Hp) as (Hexp & _ & _ & Hname & _).
  assert (Hset : canSet fs (Some n) = Some n)
    by (unfold canSet; rewrite Hn, Hexp; reflexivity).
  unfold fieldFor. destruct Hname as [Htag | [Htag Htitle]].
  - assert (Hpn : pointName f = tagName (ftag f)).
    { unfold pointName. apply String.eqb_neq in Htag. rewrite Htag.
      reflexivity. }
    rewrite (findIndex_first _ fs n f Hn).
    + rewrite Hset. reflexivity.
    + rewrite Hpn. apply String.eqb_refl.
    + intros j g Hj Hg. apply String.eqb_eq in Hg.
      apply (same_place pointName fs j n g f Hpoints Hj Hn).
      unfold pointName at 1. rewrite Hg, Hpn.
      apply String.eqb_neq in Htag. rewrite Htag. reflexivity.
  - assert (Hpn : pointName f = titleToSnake (fname f)).
    { unfold pointName. rewrite Htag. reflexivity. }
    assert (Hne : pointName f <> "").
    { rewrite Hpn. apply titleToSnake_nonempty, title_name_nonempty, Htitle. }
    rewrite findIndex_none.
    + cbn [canSet].
      rewrite (findIndex_first _ fs n f Hn).
      * exact Hset.
      * rewrite Hpn, (NamingLaws.snakeToTitle_titleToSnake _ Htitle).
        apply String.eqb_refl.
      * intros j g Hj Hg. apply String.eqb_eq in Hg.
        apply (same_place fname fs j n g f Hnames Hj Hn).
        rewrite Hg, Hpn. apply NamingLaws.snakeToTitle_titleToSnake, Htitle.
    + intros g Hg. apply String.eqb_neq. intros E.
      apply In_nth_error in Hg as [j Hj].
      assert (Hjn : j = n).
      { apply (same_place pointName fs j n g f Hpoints Hj Hn).
        unfold pointName at 1. rewrite E.
        apply String.eqb_neq in Hne. rewrite Hne. reflexivity. }
      subst j. rewrite Hn in Hj. injection Hj as <-. congruence.
Qed.

(** X18.  The encoder and the decoder agree on names: the name under which
    [ToPoint] writes a portable field of a record, whose fields have
    distinct names and are written under distinct names, selects that very
    field in [alignToStruct]. *)
Theorem decoder_finds_encoded_name (fs : list (field val)) (n : nat)
  (f : field val) :
  NoDup (map fname fs) ->
  NoDup (map pointName fs) ->
  nth_error fs n = Some f ->
  portable f = true ->
  fieldFor fs (pointName f) = Some n.
Proof. apply fieldFor_pointName. Qed.

Lemma decoder_finds_encoded_name_witness :
  fieldFor [mkField "Host" "host,tag" (VString "a");
            mkField "CpuLoad" "" (VInt W64 1)]
    (pointName (mkField "CpuLoad" "" (VInt W64 1)))
  = Some 1%nat.
Proof.
  apply decoder_finds_encoded_name.
  - simpl. repeat constructor; simpl; intuition discriminate.
  - simpl. repeat constructor; simpl; intuition discriminate.
  - reflexivity.
  - reflexivity.
Defined.

(** *** Scalars there and back *)







Lemma fits_scalar (v : val) : fits v = true -> scalar v = true.
Proof. destruct v; try discriminate; reflexivity. Qed.







(** *** What the encoder writes *)






(** *** What the decoder reads *)









(** *** The round trip *)




End RoundTrip.

(** ** A row into a record of scalars *)

Module RecordLaws.
Import Int GoTime Value Coerce Strings Naming Decode Shapes Laws.












End RecordLaws.
